(** * Dhan dashboard: a shallow embedding of the observer (front end)

    The repository's sources are the React components [App.jsx] (two
    versions), [PaperTrades.jsx] and [PaperTrading.jsx].  Their handlers
    are embedded below as functions over an explicit component state;
    network answers, [Date.now()] readings and [confirm] answers are
    inputs of the handlers.

    Numbers: a JavaScript number is modelled by an exact rational
    ([Qc], canonical, so that [=] is numeric equality); rounding of
    IEEE doubles and the [toFixed(2)] formatting of a cell are not
    modelled.  Clock readings are integers (milliseconds). *)

From Stdlib Require Import ZArith QArith Qcanon List String Ascii Bool Lia Sorted.
From stdpp Require Import gmap strings list pretty sorting.

Close Scope Q_scope.
Close Scope Qc_scope.
Open Scope string_scope.
Open Scope Z_scope.
Open Scope list_scope.

(* ===================================================================== *)
(** * JavaScript values *)
(* ===================================================================== *)

Module JS.

(** A scalar found in a JSON payload where the code expects an
    identifier (alert id, order id, security id): absent, [null], a
    boolean, an integer or a string. *)
Inductive scalar :=
| Undefined
| Null
| Bool (b : bool)
| Num (n : Z)
| Str (s : string).

#[global] Instance scalar_eq_dec : EqDecision scalar.
Proof. solve_decision. Defined.

Definition scalar_enc (v : scalar) : unit + (unit + (bool + (Z + string))) :=
  match v with
  | Undefined => inl tt
  | Null => inr (inl tt)
  | Bool b => inr (inr (inl b))
  | Num n => inr (inr (inr (inl n)))
  | Str s => inr (inr (inr (inr s)))
  end.

Definition scalar_dec (x : unit + (unit + (bool + (Z + string)))) : scalar :=
  match x with
  | inl _ => Undefined
  | inr (inl _) => Null
  | inr (inr (inl b)) => Bool b
  | inr (inr (inr (inl n))) => Num n
  | inr (inr (inr (inr s))) => Str s
  end.

#[global] Instance scalar_countable : Countable scalar.
Proof. apply (inj_countable' scalar_enc scalar_dec). by intros []. Defined.

(** [!!x] of JavaScript: [undefined], [null], [false], [0] and the
    empty string are falsy. *)
Definition truthy (v : scalar) : bool :=
  match v with
  | Undefined | Null => false
  | Bool b => b
  | Num n => negb (n =? 0)
  | Str s => negb (String.eqb s "")
  end.

(** [a ?? b] on scalars: only [undefined] and [null] fall through. *)
Definition nullish (v : scalar) : bool :=
  match v with Undefined | Null => true | _ => false end.

Definition coalesce (a b : scalar) : scalar := if nullish a then b else a.

(** [a || b] on scalars. *)
Definition or_else (a b : scalar) : scalar := if truthy a then a else b.

(** [String(v)]. *)
Definition String_ (v : scalar) : string :=
  match v with
  | Undefined => "undefined"
  | Null => "null"
  | Bool true => "true"
  | Bool false => "false"
  | Num n => pretty n
  | Str s => s
  end.

(** A numeric field of a payload: [None] when the field is absent or
    [null].  [x ?? d] and [parseFloat] of a number. *)
Definition num_or (x : option Qc) (d : Qc) : Qc := default d x.

(** [x || d] on numbers: [0] is falsy. *)
Definition Qc_or (x d : Qc) : Qc := if decide (x = 0%Qc) then d else x.

(** ** Case mapping and substring search *)

(** Upper-casing of one ASCII character: [a]..[z] become [A]..[Z],
    every other character is left alone. *)
Definition upper_ascii (c : ascii) : ascii :=
  let n := nat_of_ascii c in
  if ((97 <=? n)%nat && (n <=? 122)%nat)%bool then ascii_of_nat (n - 32) else c.

(** Letter-by-letter upper-casing, which is what [toUpperCase] does on
    an ASCII text. *)
Fixpoint ascii_upper (s : string) : string :=
  match s with
  | EmptyString => EmptyString
  | String c r => String (upper_ascii c) (ascii_upper r)
  end.

(** Is every character of the text an ASCII character (below 128)? *)
Fixpoint is_ascii (s : string) : bool :=
  match s with
  | EmptyString => true
  | String c r => (nat_of_ascii c <? 128)%nat && is_ascii r
  end.

(** [s.toUpperCase()].  JavaScript upper-cases by the Unicode case
    tables.  On an ASCII text that is [ascii_upper]; on a text with a
    non-ASCII character (a dotless i, say, which becomes [I]) the
    result comes from those tables, which belong to the runtime and
    not to the sources: it is the parameter [unicode_upper]. *)
Definition toUpperCase (unicode_upper : string -> string) (s : string) : string :=
  if is_ascii s then ascii_upper s else unicode_upper s.

Fixpoint startsWith (s p : string) : bool :=
  match p, s with
  | EmptyString, _ => true
  | String _ _, EmptyString => false
  | String a p', String b s' => if Ascii.eqb a b then startsWith s' p' else false
  end.

(** [s.includes(p)]: is [p] a contiguous part of [s]? *)
Fixpoint includes (s p : string) : bool :=
  if startsWith s p then true
  else match s with
       | EmptyString => false
       | String _ s' => includes s' p
       end.

End JS.

Import JS.

(* ===================================================================== *)
(** * Effects: component state, exceptions, requests *)
(* ===================================================================== *)

Module Eff.

(** What [catch (e)] receives: the error's [message], the text
    [JSON.stringify(e)] gives for it and the text [String(e)] gives. *)
Record exn := { message : string; json : string; text : string }.

(** [safeMsg(e.message || e)] for a caught error [e] (App.jsx, both
    versions: a nonempty message is returned as it is). *)
Definition safeMsg_err (e : exn) : string :=
  if String.eqb (message e) "" then json e else message e.

(** The outcome of an awaited axios call: the promise rejects (network
    error, timeout, HTTP error status) or resolves with a payload. *)
Inductive http (A : Type) :=
| Rejected (e : exn)
| Resolved (data : A).
Arguments Rejected {A} e.
Arguments Resolved {A} data.

Section Monad.
Context {S : Type}.

(** A handler run: it ends normally or by a thrown exception, and in
    both cases the state written so far stays written. *)
Definition M (A : Type) : Type := S -> (exn + A) * S.

Definition ret {A} (a : A) : M A := fun s => (inr a, s).

Definition bind {A B} (m : M A) (k : A -> M B) : M B :=
  fun s => match m s with
           | (inl e, s') => (inl e, s')
           | (inr a, s') => k a s'
           end.

Definition throw {A} (e : exn) : M A := fun s => (inl e, s).

(** [try { m } catch (e) { h e }] *)
Definition try_catch {A} (m : M A) (h : exn -> M A) : M A :=
  fun s => match m s with
           | (inl e, s') => h e s'
           | (inr a, s') => (inr a, s')
           end.

(** [try { m } finally { f }] *)
Definition finally {A} (m : M A) (f : M unit) : M A :=
  fun s => match m s with
           | (r, s') => match f s' with
                        | (inl e, s'') => (inl e, s'')
                        | (inr _, s'') => (r, s'')
                        end
           end.

Definition gets {A} (f : S -> A) : M A := fun s => (inr (f s), s).
Definition modify (f : S -> S) : M unit := fun s => (inr tt, f s).

(** [await p]: a rejected promise throws at the [await]. *)
Definition await {A} (r : http A) : M A :=
  match r with
  | Rejected e => throw e
  | Resolved d => ret d
  end.

(** The state a run leaves behind. *)
Definition exec {A} (m : M A) (s : S) : S := snd (m s).
End Monad.

Arguments M S A : clear implicits.

#[global] Instance M_ret {S} : MRet (M S) := fun A => @ret S A.
#[global] Instance M_bind {S} : MBind (M S) := fun A B k m => @bind S A B m k.

End Eff.

Import Eff.

(* ===================================================================== *)
(** * The backend API as the components use it *)
(* ===================================================================== *)

Module Api.

(** The query parameters of [POST /order/place]. *)
Record place_params := {
  symbol : string;
  security_id : scalar;
  pp_segment : string;
  pp_side : string;
  pp_qty : Qc;
  order_type : string;
  pp_price : Qc;
  product_type : string;
  pp_validity : string;
}.

Inductive request :=
| GetOrders                                   (* GET /orders *)
| GetAlerts (limit : Z)                       (* GET /webhook/alerts *)
| GetResolveSymbol (sym seg : string)         (* GET /resolve-symbol *)
| PostOrderPlace (p : place_params)           (* POST /order/place *)
| PostOrderCancel (order_id : scalar).        (* POST /order/cancel *)

(** An element of [r.data.alerts]: its [id] and the rest of the
    payload (request, instrument, response, timestamp), which the
    dedup and expiry logic never reads. *)
Record alert := { a_id : scalar; a_body : string }.

(** A row of [GET /orders]. *)
Record order := {
  orderId : scalar;
  o_id : scalar;
  clientOrderId : scalar;
  orderStatus : scalar;
  o_status : scalar;
}.

(** A row of [GET /positions] and of [GET /holdings]: the numeric
    fields the tables read ([None]: absent or [null]). *)
Record position := {
  p_tradingSymbol : string;
  buyAvg : option Qc;
  avgPrice : option Qc;
  p_ltp : option Qc;
  p_lastTradedPrice : option Qc;
  netQty : option Qc;
  p_quantity : option Qc;
}.

Record holding := {
  h_tradingSymbol : string;
  avgCostPrice : option Qc;
  averagePrice : option Qc;
  h_lastTradedPrice : option Qc;
  h_ltp : option Qc;
  totalQty : option Qc;
  h_quantity : option Qc;
}.

(** An instrument as [/symbol-search] returns it, with the
    [security_id] copy that [pickInstrument] of the current App adds. *)
Record instrument := {
  tradingSymbol : string;
  securityId : scalar;
  inst_security_id : scalar;
  inst_segment : string;
  inst_expiry : string;
}.

(** The body of an answer to [/order/cancel]: [res.data?.status] and
    [res.data?.message]. *)
Record cancel_reply := { cr_status : scalar; cr_message : scalar }.

(** The body of an answer to [/resolve-symbol]: [r.data.inst], when
    [r.data] and [r.data.inst] are there, and [r.data?.message]. *)
Record resolve_reply := { rr_inst : option instrument; rr_message : scalar }.

End Api.

Import Api.

(* ===================================================================== *)
(** * The order form (the same state in both versions of App.jsx) *)
(* ===================================================================== *)

Module Form.

(** The value of an [<input type="number">] as the browser hands it to
    [onChange]: the empty string, or a valid floating-point literal,
    given here by the number it denotes. *)
Inductive number_input :=
| Blank
| Literal (q : Qc).

(** [Number(s)] of such a value: [Number("")] is [0]. *)
Definition Number (s : number_input) : Qc :=
  match s with Blank => 0%Qc | Literal q => q end.

(** [parseFloat(s || 0)]: the empty string is falsy, so [parseFloat(0)];
    a literal is a nonempty string and parses to its number. *)
Definition parseFloat_or_0 (s : number_input) : Qc :=
  match s with Blank => 0%Qc | Literal q => q end.

Record form_state := {
  segment : string;
  searchQuery : string;
  searchResults : list instrument;
  selectedInstrument : option instrument;
  qty : Qc;
  side : string;
  orderType : string;
  price : number_input;
  productType : string;
  validity : string;
}.

Definition set_selectedInstrument (v : option instrument) (f : form_state) : form_state :=
  {| segment := segment f; searchQuery := searchQuery f;
     searchResults := searchResults f; selectedInstrument := v;
     qty := qty f; side := side f; orderType := orderType f;
     price := price f; productType := productType f;
     validity := validity f |}.

End Form.

Import Form.

(* ===================================================================== *)
(** * App.jsx, current version *)
(* ===================================================================== *)

Module App.

(** A card of the live-alerts list: [{ ...a, _expiry }]. *)
Record card := { c_alert : alert; _expiry : Z }.

Definition card_id (c : card) : scalar := a_id (c_alert c).

Record exit_modal := {
  em_symbol : string;
  em_segment : string;
  em_securityId : scalar;
  em_qty : Qc;
  em_side : string;
}.

(** The [useState] and [useRef] cells of the component. *)
Record app := {
  status : string;
  statusError : option string;
  notif : option string;
  funds : option (gmap string Qc);
  holdings : list holding;
  positions : list position;
  orders : list order;
  form : form_state;
  error : option string;
  placing : bool;
  loadingOrders : bool;
  marketNotice : string;
  exitModal : option exit_modal;
  liveAlerts : list card;
  seenAlertIds : gset scalar;
}.

(** The component together with the requests it has issued, oldest
    first. *)
Record world := { ui : app; sent : list request }.

Definition setNotif (v : option string) (a : app) : app :=
  {| status := status a; statusError := statusError a; notif := v;
     funds := funds a; holdings := holdings a; positions := positions a;
     orders := orders a; form := form a; error := error a;
     placing := placing a; loadingOrders := loadingOrders a;
     marketNotice := marketNotice a; exitModal := exitModal a;
     liveAlerts := liveAlerts a; seenAlertIds := seenAlertIds a |}.

Definition setOrders (v : list order) (a : app) : app :=
  {| status := status a; statusError := statusError a; notif := notif a;
     funds := funds a; holdings := holdings a; positions := positions a;
     orders := v; form := form a; error := error a;
     placing := placing a; loadingOrders := loadingOrders a;
     marketNotice := marketNotice a; exitModal := exitModal a;
     liveAlerts := liveAlerts a; seenAlertIds := seenAlertIds a |}.

Definition setForm (v : form_state) (a : app) : app :=
  {| status := status a; statusError := statusError a; notif := notif a;
     funds := funds a; holdings := holdings a; positions := positions a;
     orders := orders a; form := v; error := error a;
     placing := placing a; loadingOrders := loadingOrders a;
     marketNotice := marketNotice a; exitModal := exitModal a;
     liveAlerts := liveAlerts a; seenAlertIds := seenAlertIds a |}.

Definition setError (v : option string) (a : app) : app :=
  {| status := status a; statusError := statusError a; notif := notif a;
     funds := funds a; holdings := holdings a; positions := positions a;
     orders := orders a; form := form a; error := v;
     placing := placing a; loadingOrders := loadingOrders a;
     marketNotice := marketNotice a; exitModal := exitModal a;
     liveAlerts := liveAlerts a; seenAlertIds := seenAlertIds a |}.

Definition setPlacing (v : bool) (a : app) : app :=
  {| status := status a; statusError := statusError a; notif := notif a;
     funds := funds a; holdings := holdings a; positions := positions a;
     orders := orders a; form := form a; error := error a;
     placing := v; loadingOrders := loadingOrders a;
     marketNotice := marketNotice a; exitModal := exitModal a;
     liveAlerts := liveAlerts a; seenAlertIds := seenAlertIds a |}.

Definition setLoadingOrders (v : bool) (a : app) : app :=
  {| status := status a; statusError := statusError a; notif := notif a;
     funds := funds a; holdings := holdings a; positions := positions a;
     orders := orders a; form := form a; error := error a;
     placing := placing a; loadingOrders := v;
     marketNotice := marketNotice a; exitModal := exitModal a;
     liveAlerts := liveAlerts a; seenAlertIds := seenAlertIds a |}.

Definition setMarketNotice (v : string) (a : app) : app :=
  {| status := status a; statusError := statusError a; notif := notif a;
     funds := funds a; holdings := holdings a; positions := positions a;
     orders := orders a; form := form a; error := error a;
     placing := placing a; loadingOrders := loadingOrders a;
     marketNotice := v; exitModal := exitModal a;
     liveAlerts := liveAlerts a; seenAlertIds := seenAlertIds a |}.

(** [setLiveAlerts(prev => f prev)] *)
Definition setLiveAlerts (f : list card -> list card) (a : app) : app :=
  {| status := status a; statusError := statusError a; notif := notif a;
     funds := funds a; holdings := holdings a; positions := positions a;
     orders := orders a; form := form a; error := error a;
     placing := placing a; loadingOrders := loadingOrders a;
     marketNotice := marketNotice a; exitModal := exitModal a;
     liveAlerts := f (liveAlerts a); seenAlertIds := seenAlertIds a |}.

(** Writing [seenAlertIdsRef.current]. *)
Definition set_seenAlertIds (v : gset scalar) (a : app) : app :=
  {| status := status a; statusError := statusError a; notif := notif a;
     funds := funds a; holdings := holdings a; positions := positions a;
     orders := orders a; form := form a; error := error a;
     placing := placing a; loadingOrders := loadingOrders a;
     marketNotice := marketNotice a; exitModal := exitModal a;
     liveAlerts := liveAlerts a; seenAlertIds := v |}.

Definition on_ui (f : app -> app) : M world unit :=
  modify (fun w => {| ui := f (ui w); sent := sent w |}).

(** Issuing a request: it is on the wire before its answer is awaited. *)
Definition send (r : request) : M world unit :=
  modify (fun w => {| ui := ui w; sent := sent w ++ [r] |}).

(** [toast(m)]: the message is shown at once.  (The timer that blanks
    it four seconds later is a separate, later event.) *)
Definition toast (m : string) : M world unit := on_ui (setNotif (Some m)).

(** ** Orders *)

Definition fetchOrders (resp : http (option (list order))) : M world unit :=
  on_ui (setLoadingOrders true);;
  finally
    (try_catch
       (send GetOrders;;
        r ← await resp;
        on_ui (setOrders (default [] r)))
       (fun e =>
          let msg := ("Error fetching orders: " ++ safeMsg_err e)%string in
          on_ui (setOrders []);;
          on_ui (setError (Some msg));;
          toast ("💥 " ++ msg)%string))
    (on_ui (setLoadingOrders false)).

(** The Order Book's last cell: the Cancel button with the argument its
    click passes to [handleCancel], or a dash. *)
Inductive row_action :=
| CancelButton (arg : scalar)
| Dash.

(** [String(o.orderStatus || o.status || "")] *)
Definition order_status_text (o : order) : string :=
  String_ (or_else (or_else (orderStatus o) (o_status o)) (Str "")).

(** The test of the Action cell; [unicode_upper] is what the runtime's
    [toUpperCase] gives on a text that is not ASCII. *)
Definition cancel_offered (unicode_upper : string -> string) (o : order) : bool :=
  includes (toUpperCase unicode_upper (order_status_text o)) "PENDING"
  || includes (toUpperCase unicode_upper (order_status_text o)) "OPEN".

Definition order_action (unicode_upper : string -> string) (o : order) : row_action :=
  if cancel_offered unicode_upper o
  then CancelButton (or_else (orderId o) (o_id o)) else Dash.

(** [handleCancel(orderId)]; [confirmed] is the answer of
    [window.confirm], [resp] the outcome of the cancel request and
    [orders_resp] that of the refresh started after a success. *)
Definition handleCancel (orderId : scalar) (confirmed : bool)
    (resp : http cancel_reply) (orders_resp : http (option (list order)))
    : M world unit :=
  if negb (truthy orderId) then mret tt
  else if negb confirmed then mret tt
  else
    try_catch
      (send (PostOrderCancel orderId);;
       res ← await resp;
       if decide (cr_status res = Str "success") then
         toast "Order cancelled ✅";;
         fetchOrders orders_resp
       else
         toast ("Cancel failed: " ++ String_ (or_else (cr_message res) (Str "Unknown")))%string)
      (fun e => toast ("Cancel error: " ++ safeMsg_err e)%string).

(** ** Holdings and positions tables *)

(** What a table row shows: quantity, average, last price and P&L. *)
Record row := { r_qty : Qc; r_avg : Qc; r_ltp : Qc; r_pnl : Qc }.

Definition position_row (p : position) : row :=
  let avg := num_or (buyAvg p) (num_or (avgPrice p) 0%Qc) in
  let ltp := num_or (p_ltp p) (num_or (p_lastTradedPrice p) 0%Qc) in
  let qtyv := num_or (netQty p) (num_or (p_quantity p) 0%Qc) in
  let pnl := ((ltp - avg) * qtyv)%Qc in
  {| r_qty := qtyv; r_avg := avg; r_ltp := ltp; r_pnl := pnl |}.

Definition holding_row (h : holding) : row :=
  let avg := num_or (avgCostPrice h) (num_or (averagePrice h) 0%Qc) in
  let ltp := num_or (h_lastTradedPrice h) (num_or (h_ltp h) 0%Qc) in
  let qtyv := num_or (totalQty h) (num_or (h_quantity h) 0%Qc) in
  let pnl := ((ltp - avg) * qtyv)%Qc in
  {| r_qty := qtyv; r_avg := avg; r_ltp := ltp; r_pnl := pnl |}.

(** ** The live-alerts feed *)

(** The [for (const a of arr)] loop of [fetchAlerts]: [seen] is
    [seenAlertIdsRef.current], [newOnes] the array being filled. *)
Fixpoint scan (now : Z) (arr : list alert) (seen : gset scalar)
    (newOnes : list card) : gset scalar * list card :=
  match arr with
  | [] => (seen, newOnes)
  | a :: rest =>
      let id := a_id a in
      if negb (truthy id) then scan now rest seen newOnes
      else if decide (id ∈ seen) then scan now rest seen newOnes
      else scan now rest ({[id]} ∪ seen)
             (newOnes ++ [{| c_alert := a; _expiry := now + 20000 |}])
  end.

(** [fetchAlerts]: [resp] is the outcome of the GET, [now] the clock
    read after it, [tupd] the clock read inside the state updater. *)
Definition fetchAlerts (resp : http (option (list alert))) (now tupd : Z)
    : M world unit :=
  try_catch
    (send (GetAlerts 100);;
     r ← await resp;
     let arr := default [] r in
     seen ← gets (fun w => seenAlertIds (ui w));
     let '(seen', newOnes) := scan now arr seen [] in
     on_ui (set_seenAlertIds seen');;
     if decide (newOnes = []) then mret tt
     else
       on_ui (setLiveAlerts (fun prev =>
         let survived := filter (fun x => tupd < _expiry x) prev in
         newOnes ++ survived)))
    (fun _ => mret tt).

(** The sweeper's tick, with the clock read in its updater. *)
Definition sweep (t : Z) : M world unit :=
  on_ui (setLiveAlerts (filter (fun x => t < _expiry x))).

(** What happens to the feed over time: an answer to a poll is
    processed, or the sweeper ticks. *)
Inductive event :=
| Poll (now tupd : Z) (resp : http (option (list alert)))
| Sweep (t : Z).

Definition event_time (e : event) : Z :=
  match e with
  | Poll now _ _ => now
  | Sweep t => t
  end.

Definition step (w : world) (e : event) : world :=
  match e with
  | Poll now tupd resp => exec (fetchAlerts resp now tupd) w
  | Sweep t => exec (sweep t) w
  end.

Definition run (w : world) (evs : list event) : world := fold_left step evs w.

(** The cards an event puts on the display. *)
Definition new_cards (w : world) (e : event) : list card :=
  match e with
  | Poll now _ (Resolved r) => snd (scan now (default [] r) (seenAlertIds (ui w)) [])
  | _ => []
  end.

(** All cards put on the display in the course of a run. *)
Fixpoint added (w : world) (evs : list event) : list card :=
  match evs with
  | [] => []
  | e :: rest => new_cards w e ++ added (step w e) rest
  end.

(** The list on display at time [t]: the events up to [t] have run. *)
Definition displayed (w : world) (evs : list event) (t : Z) : list card :=
  liveAlerts (ui (run w (filter (fun e => event_time e <= t) evs))).

(** Events come in the order of their clock readings. *)
Definition chronological (evs : list event) : Prop :=
  StronglySorted (fun a b => event_time a <= event_time b) evs.

(** ** Placing an order *)

(** [{ ...prev, security_id: s }] *)
Definition set_security_id (s : scalar) (i : instrument) : instrument :=
  {| tradingSymbol := tradingSymbol i; securityId := securityId i;
     inst_security_id := s; inst_segment := inst_segment i;
     inst_expiry := inst_expiry i |}.

(** The [params] object of [handlePlaceOrder]; [qty] is a number
    already, so [Number(qty)] is [qty]. *)
Definition place_params_of (f : form_state) (inst : instrument)
    (securityId : scalar) : place_params :=
  {| symbol := tradingSymbol inst;
     security_id := securityId;
     pp_segment := segment f;
     pp_side := side f;
     pp_qty := qty f;
     order_type := orderType f;
     pp_price := Qc_or (Number (price f)) 0%Qc;
     product_type := productType f;
     pp_validity := validity f |}.

(** [handlePlaceOrder] up to and including the POST; the form is the
    one the handler's closure saw.  [resolve_resp] is the outcome of
    the [/resolve-symbol] call, made only when no security id is at
    hand.  What follows the POST (toasts, refreshes, the outer [catch]
    and [finally]) cannot change a request already sent and is left
    out. *)
Definition handlePlaceOrder (resolve_resp : http resolve_reply) : M world unit :=
  f ← gets (fun w => form (ui w));
  on_ui (setPlacing true);;
  on_ui (setError None);;
  on_ui (setMarketNotice "");;
  match selectedInstrument f with
  | None =>
      toast "Please select an instrument from search results first.";;
      on_ui (setPlacing false)
  | Some inst =>
      let securityId := coalesce (securityId inst) (inst_security_id inst) in
      sid ← (if truthy securityId then mret (Some securityId)
             else
               try_catch
                 (send (GetResolveSymbol (tradingSymbol inst) (inst_segment inst));;
                  r ← await resolve_resp;
                  match rr_inst r with
                  | Some i =>
                      let s := Str (String_ (Api.securityId i)) in
                      on_ui (fun a =>
                        setForm (set_selectedInstrument
                                   (set_security_id s <$> selectedInstrument (form a))
                                   (form a)) a);;
                      mret (Some s)
                  | None =>
                      throw {| message := String_ (or_else (rr_message r)
                                                     (Str "Could not resolve symbol"));
                               json := "{}";
                               text := "Error" |}
                  end)
                 (fun e =>
                    let msg := ("❌ Resolve failed: " ++ json e)%string in
                    on_ui (setError (Some msg));;
                    toast msg;;
                    on_ui (setPlacing false);;
                    mret None));
      match sid with
      | None => mret tt
      | Some securityId => send (PostOrderPlace (place_params_of f inst securityId))
      end
  end.

End App.

(* ===================================================================== *)
(** * App.jsx, earlier version *)
(* ===================================================================== *)

Module AppOld.

Import App.

(** The [params] object of the earlier [handlePlaceOrder]. *)
Definition place_params_of (f : form_state) (inst : instrument) : place_params :=
  {| symbol := tradingSymbol inst;
     pp_segment := segment f;
     pp_side := side f;
     pp_qty := qty f;
     order_type := orderType f;
     pp_price := if decide (orderType f = "LIMIT")
                 then parseFloat_or_0 (price f) else 0%Qc;
     product_type := productType f;
     pp_validity := validity f;
     security_id := securityId inst |}.

(** The earlier [handlePlaceOrder], up to and including the POST.  Its
    component has the cells of the current one except the alerts feed
    and the exit dialog, which this handler does not touch; it runs on
    the same [world]. *)
Definition handlePlaceOrder : M world unit :=
  f ← gets (fun w => form (ui w));
  on_ui (setPlacing true);;
  on_ui (setError None);;
  on_ui (setMarketNotice "");;
  match selectedInstrument f with
  | None =>
      toast "Please select an instrument from search results first.";;
      on_ui (setPlacing false)
  | Some inst => send (PostOrderPlace (place_params_of f inst))
  end.

End AppOld.

(* ===================================================================== *)
(** * App.jsx: messages, instrument picking, submit button *)
(* ===================================================================== *)

Module Messages.

(** What [safeMsg] may be handed: a scalar or an object (an error). *)
Inductive jsval :=
| Scalar (v : scalar)
| Object (e : exn).

(** [safeMsg(x)] of the current App.jsx: falsy values other than the
    number 0 give the empty text, a string is returned as it is, an
    object is rendered by [JSON.stringify], anything else by
    [String]. *)
Definition safeMsg (x : jsval) : string :=
  match x with
  | Scalar v =>
      if negb (truthy v) && negb (bool_decide (v = Num 0)) then ""
      else match v with
           | Str s => s
           | _ => String_ v
           end
  | Object e => json e
  end.

(** [safeMsg(x)] of the earlier App.jsx: an object with a truthy
    [message] gives that message. *)
Definition safeMsg_old (x : jsval) : string :=
  match x with
  | Scalar v =>
      if negb (truthy v) && negb (bool_decide (v = Num 0)) then ""
      else match v with
           | Str s => s
           | _ => String_ v
           end
  | Object e => if String.eqb (message e) "" then json e else message e
  end.

(** [e.message || e] for a caught error [e]. *)
Definition message_or_self (e : exn) : jsval :=
  if String.eqb (message e) "" then Object e else Scalar (Str (message e)).

End Messages.

Module OrderForm.

Import App.

Definition set_searchQuery (v : string) (f : form_state) : form_state :=
  {| segment := segment f; searchQuery := v;
     searchResults := searchResults f; selectedInstrument := selectedInstrument f;
     qty := qty f; side := side f; orderType := orderType f;
     price := price f; productType := productType f;
     validity := validity f |}.

Definition set_searchResults (v : list instrument) (f : form_state) : form_state :=
  {| segment := segment f; searchQuery := searchQuery f;
     searchResults := v; selectedInstrument := selectedInstrument f;
     qty := qty f; side := side f; orderType := orderType f;
     price := price f; productType := productType f;
     validity := validity f |}.

Definition on_form (g : form_state -> form_state) : M world unit :=
  on_ui (fun a => setForm (g (form a)) a).

(** [inst.tradingSymbol + (inst.expiry ? ` ${inst.expiry}` : "")] *)
Definition picked_query (inst : instrument) : string :=
  (tradingSymbol inst
   ++ (if String.eqb (inst_expiry inst) "" then "" else " " ++ inst_expiry inst))%string.

(** [pickInstrument(inst)] of the current App.jsx. *)
Definition pickInstrument (inst : instrument) : M world unit :=
  on_form (set_selectedInstrument
             (Some (set_security_id (Str (String_ (securityId inst))) inst)));;
  on_form (set_searchQuery (picked_query inst));;
  on_form (set_searchResults []).

(** [pickInstrument(inst)] of the earlier App.jsx. *)
Definition pickInstrument_old (inst : instrument) : M world unit :=
  on_form (set_selectedInstrument (Some inst));;
  on_form (set_searchQuery (picked_query inst));;
  on_form (set_searchResults []).

(** [selectedInstrument?.x]: [undefined] when nothing is selected. *)
Definition selected_field (x : instrument -> scalar) (a : app) : scalar :=
  match selectedInstrument (form a) with
  | Some i => x i
  | None => Undefined
  end.

(** The [disabled] attribute of the submit button, current App.jsx. *)
Definition submit_disabled (a : app) : bool :=
  placing a
  || negb (truthy (or_else (selected_field securityId a)
                           (selected_field inst_security_id a))).

(** The [disabled] attribute of the submit button, earlier App.jsx. *)
Definition submit_disabled_old (a : app) : bool :=
  placing a || negb (truthy (selected_field securityId a)).

End OrderForm.

(* ===================================================================== *)
(** * App.jsx: the account poll and the connection header *)
(* ===================================================================== *)

Module Account.

Import App.

(** The body of an answer to [GET /status], as [fetchAll] reads it. *)
Record status_reply := {
  st_status : scalar;
  instruments_db_current_today : scalar;
  broker_ready : scalar;
  st_message : scalar;
}.

Inductive request :=
| GetStatus          (* GET /status *)
| GetFunds           (* GET /funds *)
| GetHoldings        (* GET /holdings *)
| GetPositions.      (* GET /positions *)

(** The component and the requests [fetchAll] has issued. *)
Record world := { ui : app; sent : list request }.

Definition setStatus (v : string) (a : app) : app :=
  {| status := v; statusError := statusError a; notif := notif a;
     funds := funds a; holdings := holdings a; positions := positions a;
     orders := orders a; form := form a; error := error a;
     placing := placing a; loadingOrders := loadingOrders a;
     marketNotice := marketNotice a; exitModal := exitModal a;
     liveAlerts := liveAlerts a; seenAlertIds := seenAlertIds a |}.

Definition setStatusError (v : option string) (a : app) : app :=
  {| status := status a; statusError := v; notif := notif a;
     funds := funds a; holdings := holdings a; positions := positions a;
     orders := orders a; form := form a; error := error a;
     placing := placing a; loadingOrders := loadingOrders a;
     marketNotice := marketNotice a; exitModal := exitModal a;
     liveAlerts := liveAlerts a; seenAlertIds := seenAlertIds a |}.

Definition setFunds (v : option (gmap string Qc)) (a : app) : app :=
  {| status := status a; statusError := statusError a; notif := notif a;
     funds := v; holdings := holdings a; positions := positions a;
     orders := orders a; form := form a; error := error a;
     placing := placing a; loadingOrders := loadingOrders a;
     marketNotice := marketNotice a; exitModal := exitModal a;
     liveAlerts := liveAlerts a; seenAlertIds := seenAlertIds a |}.

Definition setHoldings (v : list holding) (a : app) : app :=
  {| status := status a; statusError := statusError a; notif := notif a;
     funds := funds a; holdings := v; positions := positions a;
     orders := orders a; form := form a; error := error a;
     placing := placing a; loadingOrders := loadingOrders a;
     marketNotice := marketNotice a; exitModal := exitModal a;
     liveAlerts := liveAlerts a; seenAlertIds := seenAlertIds a |}.

Definition setPositions (v : list position) (a : app) : app :=
  {| status := status a; statusError := statusError a; notif := notif a;
     funds := funds a; holdings := holdings a; positions := v;
     orders := orders a; form := form a; error := error a;
     placing := placing a; loadingOrders := loadingOrders a;
     marketNotice := marketNotice a; exitModal := exitModal a;
     liveAlerts := liveAlerts a; seenAlertIds := seenAlertIds a |}.

Definition on_ui (f : app -> app) : M world unit :=
  modify (fun w => {| ui := f (ui w); sent := sent w |}).

Definition send (r : request) : M world unit :=
  modify (fun w => {| ui := ui w; sent := sent w ++ [r] |}).

Definition toast (m : string) : M world unit := on_ui (setNotif (Some m)).

(** [x || null] and [x || d] where the result is shown as text. *)
Definition text_or_null (x : scalar) : option string :=
  if truthy x then Some (String_ x) else None.

Definition text_or (x : scalar) (d : string) : string :=
  if truthy x then String_ x else d.

(** The template literal of the connected status line. *)
Definition connected_line (okBroker okDB : scalar) : string :=
  ("Connected " ++ (if truthy okBroker then "✅" else "⚠️")
   ++ " " ++ (if truthy okDB then "" else "(Instrument DB outdated)"))%string.

(** [fetchAll] of the current App.jsx; [BASE_URL] is the backend's
    address, the four arguments after it the outcomes of the four
    requests (each read only if the request is made). *)
Definition fetchAll (BASE_URL : string)
    (s : http status_reply)
    (f : http (option (gmap string Qc)))
    (h : http (option (list holding)))
    (p : http (option (list position))) : M world unit :=
  try_catch
    (send GetStatus;;
     sd ← await s;
     (if bool_decide (st_status sd = Str "ok")
         || bool_decide (st_status sd = Str "degraded")
      then
        on_ui (setStatus (connected_line (broker_ready sd)
                            (instruments_db_current_today sd)));;
        on_ui (setStatusError (text_or_null (st_message sd)))
      else
        on_ui (setStatus "Not Connected ❌");;
        on_ui (setStatusError
                 (Some (text_or (st_message sd)
                          ("Backend not reachable at " ++ BASE_URL)%string))));;
     send GetFunds;;
     fd ← await f;
     on_ui (setFunds fd);;
     send GetHoldings;;
     hd ← await h;
     on_ui (setHoldings (default [] hd));;
     send GetPositions;;
     pd ← await p;
     on_ui (setPositions (default [] pd)))
    (fun err =>
       let msg := ("Backend unreachable: " ++ safeMsg_err err)%string in
       on_ui (setStatus "Not Connected ❌");;
       on_ui (setStatusError (Some msg));;
       on_ui (setError (Some msg));;
       toast ("💥 " ++ msg)%string).

(** The colour class of the connection line in the header. *)
Definition status_class (status : string) : string :=
  if includes status "Connected" then "text-green-400" else "text-red-400".

(** The first of the four requests to be rejected, in the order
    [fetchAll] makes them. *)
Definition first_failure {A B C D} (s : http A) (f : http B) (h : http C)
    (p : http D) : option exn :=
  match s, f, h, p with
  | Rejected e, _, _, _ => Some e
  | Resolved _, Rejected e, _, _ => Some e
  | Resolved _, Resolved _, Rejected e, _ => Some e
  | Resolved _, Resolved _, Resolved _, Rejected e => Some e
  | Resolved _, Resolved _, Resolved _, Resolved _ => None
  end.

End Account.

(* ===================================================================== *)
(** * App.jsx: what the feed keeps *)
(* ===================================================================== *)

Module FeedState.

Import App.

(** The clock reading an event's filter compares expiries with: the
    updater's for a poll, the sweeper's for a sweep. *)
Definition filter_clock (e : event) : Z :=
  match e with
  | Poll _ tupd _ => tupd
  | Sweep t => t
  end.

(** The cards on display have pairwise different ids, all of them in
    the seen-set. *)
Definition consistent (a : app) : Prop :=
  NoDup (card_id <$> liveAlerts a)
  /\ forall c, c ∈ liveAlerts a -> card_id c ∈ seenAlertIds a.

End FeedState.

(* ===================================================================== *)
(** * App.jsx: the square-off dialog *)
(* ===================================================================== *)

Module ExitDialog.

Import App.

(** The object kept in [exitModal], with the fields the dialog adds
    once the user edits them ([None]: not set). *)
Record dialog := {
  source : string;
  d_symbol : string;
  d_segment : scalar;
  d_securityId : scalar;
  d_qty : Qc;
  d_side : string;
  d_orderType : option string;
  d_price : option number_input;
  d_productType : option string;
  d_validity : option string;
}.

(** [Math.abs(q)] *)
Definition Math_abs (q : Qc) : Qc :=
  match (q ?= 0)%Qc with
  | Lt => (- q)%Qc
  | _ => q
  end.

(** The Exit button of a positions row; [seg] and [secId] are the
    row's [segment] and [securityId]. *)
Definition exit_position (p : position) (seg secId : scalar) : dialog :=
  let qtyv := r_qty (position_row p) in
  {| source := "position";
     d_symbol := p_tradingSymbol p;
     d_segment := or_else seg (Str "NSE_EQ");
     d_securityId := secId;
     d_qty := Math_abs qtyv;
     d_side := match (qtyv ?= 0)%Qc with Gt => "SELL" | _ => "BUY" end;
     d_orderType := None; d_price := None;
     d_productType := None; d_validity := None |}.

(** The Exit button of a holdings row. *)
Definition exit_holding (h : holding) (seg secId : scalar) : dialog :=
  let qtyv := r_qty (holding_row h) in
  {| source := "holding";
     d_symbol := h_tradingSymbol h;
     d_segment := or_else seg (Str "NSE_EQ");
     d_securityId := secId;
     d_qty := qtyv;
     d_side := "SELL";
     d_orderType := None; d_price := None;
     d_productType := None; d_validity := None |}.

(** [x || d] on an optional string. *)
Definition opt_or (x : option string) (d : string) : string :=
  match x with
  | Some s => if String.eqb s "" then d else s
  | None => d
  end.

(** The [params] object of the Confirm Exit button.
    [Number(undefined)] is NaN, which [|| 0] turns into 0. *)
Definition exit_params (d : dialog) : place_params :=
  {| symbol := d_symbol d;
     pp_segment := String_ (d_segment d);
     pp_side := d_side d;
     pp_qty := d_qty d;
     order_type := opt_or (d_orderType d) "MARKET";
     pp_price := match d_price d with
                 | Some s => Qc_or (Number s) 0%Qc
                 | None => 0%Qc
                 end;
     product_type := opt_or (d_productType d) "INTRADAY";
     pp_validity := opt_or (d_validity d) "DAY";
     security_id := d_securityId d |}.

(** The quantity an order adds to a position: bought quantity counts
    up, any other side down. *)
Definition signed_order_qty (p : place_params) : Qc :=
  if String.eqb (pp_side p) "BUY" then pp_qty p else (- pp_qty p)%Qc.

End ExitDialog.

(* ===================================================================== *)
(** * PaperTrades.jsx *)
(* ===================================================================== *)

Module PaperTrades.

Record raw_trade := {
  id : scalar;
  trading_symbol : string;
  side : string;
  qty : Qc;
  order_type : string;
  exec_price : Qc;
}.

Record paired_trade := {
  symbol : string;
  pt_qty : Qc;
  entry_price : Qc;
  exit_price : Qc;
  pnl_gross : Qc;
  fee : Qc;
  pnl_net : Qc;
  entry_trade_id : scalar;
  exit_trade_id : scalar;
}.

Record symbol_row := {
  sr_symbol : string;
  position : Qc;
  avg_cost : Qc;
  ltp : Qc;
  unrealized : Qc;
}.

Record overall := {
  grand_total : Qc;
  total_realized_net : Qc;
  total_unrealized : Qc;
}.

(** The body of an answer to [GET /paper/trades]; a list is [None]
    when the field is absent. *)
Record trades_reply := {
  tr_status : scalar;
  raw_trades : option (list raw_trade);
  paired_trades : option (list paired_trade);
  per_symbol : option (list symbol_row);
  tr_overall : option overall;
}.

(** The body of an answer to [POST /paper/clear]: [r.data?.status]. *)
Record clear_reply := { cl_status : scalar }.

Inductive request :=
| GetPaperTrades          (* GET /paper/trades *)
| PostPaperClear.         (* POST /paper/clear *)

Record view := {
  enabled : bool;
  trades : list raw_trade;
  pairedTrades : list paired_trade;
  perSymbol : list symbol_row;
  summary : option overall;
  loading : bool;
}.

(** The component, the requests it has issued and the [alert] boxes it
    has shown, oldest first. *)
Record world := { ui : view; sent : list request; alerts : list string }.

Definition setLoading (v : bool) (a : view) : view :=
  {| enabled := enabled a; trades := trades a; pairedTrades := pairedTrades a;
     perSymbol := perSymbol a; summary := summary a; loading := v |}.

(** The four setters of a successful fetch, in one step. *)
Definition setFetched (r : trades_reply) (a : view) : view :=
  {| enabled := enabled a;
     trades := default [] (raw_trades r);
     pairedTrades := default [] (paired_trades r);
     perSymbol := default [] (per_symbol r);
     summary := tr_overall r;
     loading := loading a |}.

Definition on_ui (f : view -> view) : M world unit :=
  modify (fun w => {| ui := f (ui w); sent := sent w; alerts := alerts w |}).

Definition send (r : request) : M world unit :=
  modify (fun w => {| ui := ui w; sent := sent w ++ [r]; alerts := alerts w |}).

Definition alert (m : string) : M world unit :=
  modify (fun w => {| ui := ui w; sent := sent w; alerts := alerts w ++ [m] |}).

Definition fetchTrades (resp : http trades_reply) : M world unit :=
  on_ui (setLoading true);;
  try_catch
    (send GetPaperTrades;;
     r ← await resp;
     if decide (tr_status r = Str "success") then on_ui (setFetched r)
     else mret tt)
    (fun _ => mret tt);;
  on_ui (setLoading false).

(** [err?.message || err], as [alert] prints it. *)
Definition err_text (e : exn) : string :=
  if String.eqb (message e) "" then text e else message e.

(** [clearTrades]; [confirmed] is the answer of [confirm], [resp] the
    outcome of the clear request and [trades_resp] that of the fetch
    started after a success. *)
Definition clearTrades (confirmed : bool) (resp : http clear_reply)
    (trades_resp : http trades_reply) : M world unit :=
  if negb confirmed then mret tt
  else
    try_catch
      (send PostPaperClear;;
       r ← await resp;
       if decide (cl_status r = Str "success") then
         alert "Paper trades cleared";;
         fetchTrades trades_resp
       else alert "Clear failed")
      (fun err => alert ("Clear failed: " ++ err_text err)%string).

End PaperTrades.

(* ===================================================================== *)
(** * PaperTrading.jsx *)
(* ===================================================================== *)

Module PaperTrading.

(** A field that may be missing ([undefined]), [null], or there. *)
Inductive field (A : Type) :=
| Absent
| IsNull
| Present (a : A).
Arguments Absent {A}.
Arguments IsNull {A}.
Arguments Present {A} a.

(** A row of [r.data.trades]. *)
Record trade := {
  id : scalar;
  symbol : string;
  side : string;
  qty : Qc;
  entry_price : field Qc;
  exit_price : field Qc;
  gross_pnl : field Qc;
  net_pnl : field Qc;
}.

(** The body of an answer to [GET /paper/trades], as this component
    reads it. *)
Record trades_reply := {
  tr_trades : option (list trade);
  cumulative_net : option Qc;
  cumulative_gross : option Qc;
}.

Inductive request :=
| GetPaperTrades          (* GET /paper/trades *)
| PostPaperClear.         (* POST /paper/clear *)

Record view := {
  enabled : bool;
  charge : Qc;
  buySlippage : Qc;
  sellSlippage : Qc;
  trades : list trade;
  cumNet : Qc;
  cumGross : Qc;
  loading : bool;
}.

Record world := { ui : view; sent : list request; alerts : list string }.

Definition setLoading (v : bool) (a : view) : view :=
  {| enabled := enabled a; charge := charge a; buySlippage := buySlippage a;
     sellSlippage := sellSlippage a; trades := trades a; cumNet := cumNet a;
     cumGross := cumGross a; loading := v |}.

(** The three setters of a successful fetch, in one step. *)
Definition setFetched (r : trades_reply) (a : view) : view :=
  {| enabled := enabled a; charge := charge a; buySlippage := buySlippage a;
     sellSlippage := sellSlippage a;
     trades := default [] (tr_trades r);
     cumNet := Qc_or (num_or (cumulative_net r) 0%Qc) 0%Qc;
     cumGross := Qc_or (num_or (cumulative_gross r) 0%Qc) 0%Qc;
     loading := loading a |}.

Definition on_ui (f : view -> view) : M world unit :=
  modify (fun w => {| ui := f (ui w); sent := sent w; alerts := alerts w |}).

Definition send (r : request) : M world unit :=
  modify (fun w => {| ui := ui w; sent := sent w ++ [r]; alerts := alerts w |}).

Definition alert (m : string) : M world unit :=
  modify (fun w => {| ui := ui w; sent := sent w; alerts := alerts w ++ [m] |}).

(** [fetchTrades]; the payload [r.data] is [None] when it is falsy. *)
Definition fetchTrades (resp : http (option trades_reply)) : M world unit :=
  on_ui (setLoading true);;
  try_catch
    (send GetPaperTrades;;
     r ← await resp;
     match r with
     | Some d => on_ui (setFetched d)
     | None => mret tt
     end)
    (fun _ => mret tt);;
  on_ui (setLoading false).

Definition err_text (e : exn) : string :=
  if String.eqb (message e) "" then text e else message e.

(** [clearTrades]: any answer that resolves counts as a success. *)
Definition clearTrades (confirmed : bool) (resp : http unit)
    (trades_resp : http (option trades_reply)) : M world unit :=
  if negb confirmed then mret tt
  else
    try_catch
      (send PostPaperClear;;
       _ ← await resp;
       alert "Paper trades cleared";;
       fetchTrades trades_resp)
      (fun e => alert ("Clear failed: " ++ err_text e)%string).

Definition is_null {A} (f : field A) : bool :=
  match f with IsNull => true | _ => false end.

Definition is_undefined {A} (f : field A) : bool :=
  match f with Absent => true | _ => false end.

(** [t.exit_price === null || t.exit_price === undefined] *)
Definition is_open (t : trade) : bool :=
  is_null (exit_price t) || is_undefined (exit_price t).

(** [t.exit_price !== null && t.exit_price !== undefined] *)
Definition is_closed (t : trade) : bool :=
  negb (is_null (exit_price t)) && negb (is_undefined (exit_price t)).

Definition openTrades (ts : list trade) : list trade := List.filter is_open ts.
Definition closedTrades (ts : list trade) : list trade := List.filter is_closed ts.

End PaperTrading.

(* ===================================================================== *)
(** * The paper ledger and its matching engine *)
(* ===================================================================== *)

(** The trade ledger and its matching engine run in the backend, whose
    code is not among the sources: the front end only shows what
    [/paper/trades] returns.  Every definition of this module is
    therefore modelled from sections 3, 4.4 and 8 of the
    specification.  Quantities are positive integers and prices are
    integers (price units). *)
Module Ledger.

(** Modelled from the spec: the side of a fill (the backend's trade
    record is missing). *)

Inductive side := BUY | SELL.

#[global] Instance side_eq_dec : EqDecision side.
Proof. solve_decision. Defined.

(** Modelled from the spec: a Trade of the backend's ledger, a single
    executed fill (trade id, instrument, side, quantity, execution
    price). *)
Record trade := {
  t_id : Z;
  t_instrument : string;
  t_side : side;
  t_qty : Z;
  t_price : Z;
}.

(** Modelled from the spec: an unmatched opening lot, with the price
    and the id of the trade that opened it. *)
Record lot := {
  lot_trade : Z;
  lot_side : side;
  lot_qty : Z;
  lot_price : Z;
}.

(** Modelled from the spec: a Round-Trip, an entry matched with an
    opposing trade for a matched quantity. *)
Record round_trip := {
  rt_instrument : string;
  rt_qty : Z;
  rt_entry_price : Z;
  rt_exit_price : Z;
  rt_gross : Z;
  rt_entry_id : Z;
  rt_exit_id : Z;
}.

(** Modelled from the spec: the direction sign, positive for an
    original long and negative for an original short. *)
Definition direction (s : side) : Z :=
  match s with BUY => 1 | SELL => -1 end.

(** Modelled from the spec: gross P&L of a matched quantity,
    (exit price - entry price) x matched quantity x direction sign. *)
Definition gross_pnl (entry : lot) (exit_price matched : Z) : Z :=
  (exit_price - lot_price entry) * matched * direction (lot_side entry).

(** Modelled from the spec: the opening lot a trade enqueues for the
    quantity [q]. *)
Definition lot_of (t : trade) (q : Z) : lot :=
  {| lot_trade := t_id t; lot_side := t_side t; lot_qty := q; lot_price := t_price t |}.

(** Modelled from the spec: a lot split by a smaller trade keeps its
    price and trade id, with the quantity left. *)
Definition shrink (l : lot) (q : Z) : lot :=
  {| lot_trade := lot_trade l; lot_side := lot_side l; lot_qty := q;
     lot_price := lot_price l |}.

(** Modelled from the spec: the round-trip record of one match of
    quantity [m] between the entry lot [l] and the exit trade [t]. *)
Definition match_of (t : trade) (l : lot) (m : Z) : round_trip :=
  {| rt_instrument := t_instrument t;
     rt_qty := m;
     rt_entry_price := lot_price l;
     rt_exit_price := t_price t;
     rt_gross := gross_pnl l (t_price t) m;
     rt_entry_id := lot_trade l;
     rt_exit_id := t_id t |}.

(** Modelled from the spec: matching a reducing trade against the
    oldest unmatched lots first, splitting a lot when the trade's
    remaining quantity is smaller.  Returns the round trips, the lots
    left and the quantity of the trade left unmatched. *)
Fixpoint match_lots (t : trade) (remaining : Z) (lots : list lot)
    : list round_trip * list lot * Z :=
  match lots with
  | [] => ([], [], remaining)
  | l :: rest =>
      if remaining <=? 0 then ([], lots, 0)
      else if remaining <? lot_qty l then
        ([match_of t l remaining], shrink l (lot_qty l - remaining) :: rest, 0)
      else
        let '(rts, lots', unmatched) := match_lots t (remaining - lot_qty l) rest in
        (match_of t l (lot_qty l) :: rts, lots', unmatched)
  end.

(** Modelled from the spec: recording a trade on its instrument's
    queue.  A trade in the direction of the open lots (or on an empty
    queue) is enqueued as a new opening lot; an opposing trade is
    matched, and what exceeds the open quantity opens a lot in the new
    direction (reversal). *)
Definition record_on (t : trade) (lots : list lot) : list round_trip * list lot :=
  match lots with
  | [] => ([], [lot_of t (t_qty t)])
  | l :: _ =>
      if decide (lot_side l = t_side t) then ([], lots ++ [lot_of t (t_qty t)])
      else
        let '(rts, lots', unmatched) := match_lots t (t_qty t) lots in
        (rts, if 0 <? unmatched then lots' ++ [lot_of t unmatched] else lots')
  end.

(** Modelled from the spec: the derived state, the open lots of every
    instrument and the round trips closed so far, oldest first. *)
Record book := {
  open_lots : gmap string (list lot);
  closed : list round_trip;
}.

(** Modelled from the spec: the derived state of the empty log. *)
Definition empty_book : book := {| open_lots := ∅; closed := [] |}.

(** Modelled from the spec: matching is per instrument; a trade acts
    on the queue of its own instrument only. *)
Definition apply_trade (b : book) (t : trade) : book :=
  let lots := default [] (open_lots b !! t_instrument t) in
  let '(rts, lots') := record_on t lots in
  {| open_lots := <[t_instrument t := lots']> (open_lots b);
     closed := closed b ++ rts |}.

(** Modelled from the spec: the ledger is its append-only trade log;
    every aggregate is a function of the log. *)
Definition ledger := list trade.

(** Modelled from the spec: [record(Trade)] appends to the log. *)
Definition record (t : trade) (log : ledger) : ledger := log ++ [t].

(** Modelled from the spec: [clear()] wipes the log, and with it all
    derived state. *)
Definition clear (log : ledger) : ledger := [].

(** Modelled from the spec: the derived state is recomputed from the
    log, trade by trade in log order. *)
Definition replay (log : ledger) : book := fold_left apply_trade log empty_book.

(** Modelled from the spec: the signed quantity of a fill, and the net
    quantity of a queue of lots. *)
Definition signed_qty (s : side) (q : Z) : Z := direction s * q.

Definition net_of_lots (lots : list lot) : Z :=
  foldr (fun l acc => signed_qty (lot_side l) (lot_qty l) + acc) 0 lots.

(** Modelled from the spec: the net open quantity of an instrument, and
    the sum of the signed quantities of its trades. *)
Definition net_position (b : book) (i : string) : Z :=
  net_of_lots (default [] (open_lots b !! i)).

Definition signed_sum (i : string) (log : ledger) : Z :=
  foldr (fun t acc =>
           (if decide (t_instrument t = i)
            then signed_qty (t_side t) (t_qty t) else 0) + acc) 0 log.

(** Modelled from the spec: a queue holds opening lots of one
    direction, each of positive quantity. *)
Definition one_sided (s : side) (lots : list lot) : Prop :=
  Forall (fun l => lot_side l = s /\ 0 < lot_qty l) lots.

Definition well_formed (b : book) : Prop :=
  forall i lots, open_lots b !! i = Some lots -> exists s, one_sided s lots.

(** Modelled from the spec: the realized gross aggregate. *)
Definition realized_gross (rts : list round_trip) : Z :=
  foldr (fun r acc => rt_gross r + acc) 0 rts.

(** Modelled from the spec: [snapshot()], the raw trades, the open
    positions, the closed round trips and the aggregate. *)
Record snapshot_t := {
  snap_trades : list trade;
  openPositions : gmap string (list lot);
  closedRoundTrips : list round_trip;
  total_realized_gross : Z;
}.

Definition snapshot (log : ledger) : snapshot_t :=
  let b := replay log in
  {| snap_trades := log;
     openPositions := filter (fun kv => kv.2 ≠ []) (open_lots b);
     closedRoundTrips := closed b;
     total_realized_gross := realized_gross (closed b) |}.

End Ledger.

(* ===================================================================== *)
(** * The specification's formulas *)
(* ===================================================================== *)

Module Spec.

(** The number of integer value [z]. *)
Definition qz (z : Z) : Qc := Q2Qc (inject_Z z).

(** [sign(q)]: 1, 0 or -1. *)
Definition sign (q : Qc) : Qc :=
  match (q ?= 0)%Qc with
  | Lt => (- 1)%Qc
  | Eq => 0%Qc
  | Gt => 1%Qc
  end.

(** The specification's unrealized P&L:
    (last price - avg cost) x net qty x sign(net qty). *)
Definition unrealized_pnl (last avg net : Qc) : Qc :=
  ((last - avg) * net * sign net)%Qc.

(** [s] contains [p] up to the case of ASCII letters: some contiguous
    part of [s] has the upper-case form [p]. *)
Definition contains_ignoring_case (s p : string) : Prop :=
  exists pre mid post : string,
    s = (pre ++ mid ++ post)%string /\ ascii_upper mid = p.

(** Modelled from the spec: the backend's answer to [/paper/trades]
    once the ledger holds no trade (after [clear()] the snapshot has
    zero trades, zero open positions, zero aggregates), in the shape
    each component reads; the backend's handler is not among the
    sources. *)
Definition reports_zero_trades (r : PaperTrades.trades_reply) : Prop :=
  default [] (PaperTrades.raw_trades r) = []
  /\ default [] (PaperTrades.paired_trades r) = []
  /\ default [] (PaperTrades.per_symbol r) = [].

Definition reports_zero_trades_old (r : PaperTrading.trades_reply) : Prop :=
  default [] (PaperTrading.tr_trades r) = [].

End Spec.

Import Spec.

(* ===================================================================== *)
(** * Concrete component states and inputs *)
(* ===================================================================== *)

Module Examples.

Import App.

(** A net short position bought back lower: quantity -5, average 100,
    last price 90. *)
Definition short_position : position :=
  {| p_tradingSymbol := "NIFTY24SEP25000CE";
     buyAvg := Some (qz 100); avgPrice := None;
     p_ltp := Some (qz 90); p_lastTradedPrice := None;
     netQty := Some (qz (-5)); p_quantity := None |}.

(** The component as [useState] and [useRef] initialise it. *)
Definition initial_form : form_state :=
  {| segment := "NSE_EQ"; searchQuery := ""; searchResults := [];
     selectedInstrument := None; qty := qz 1; side := "BUY";
     orderType := "MARKET"; price := Blank; productType := "DELIVERY";
     validity := "DAY" |}.

Definition initial_app : app :=
  {| status := "Checking..."; statusError := None; notif := None;
     funds := None; holdings := []; positions := []; orders := [];
     form := initial_form; error := None; placing := false;
     loadingOrders := false; marketNotice := ""; exitModal := None;
     liveAlerts := []; seenAlertIds := ∅ |}.

Definition mounted : world := {| ui := initial_app; sent := [] |}.

(** A search result picked with [pickInstrument]. *)
Definition tcs : instrument :=
  {| tradingSymbol := "TCS"; securityId := Num 11536;
     inst_security_id := Str "11536"; inst_segment := "NSE_EQ";
     inst_expiry := "" |}.

Definition form_with (inst : option instrument) (ot : string)
    (p : number_input) : form_state :=
  {| segment := "NSE_EQ"; searchQuery := "TCS"; searchResults := [];
     selectedInstrument := inst; qty := qz 1; side := "BUY";
     orderType := ot; price := p; productType := "DELIVERY";
     validity := "DAY" |}.

Definition world_with (f : form_state) : world :=
  {| ui := setForm f initial_app; sent := [] |}.

(** The user chose LIMIT, typed 150, then switched back to MARKET: the
    price box is hidden but its state is kept. *)
Definition stale_price_world : world :=
  world_with (form_with (Some tcs) "MARKET" (Literal (qz 150))).

Definition limit_world : world :=
  world_with (form_with (Some tcs) "LIMIT" (Literal (qz 150))).

Definition network_down : exn :=
  {| message := "Network Error"; json := "{}"; text := "AxiosError: Network Error" |}.

(** Rows of the order book. *)
Definition pending_order : order :=
  {| orderId := Str "112111182198"; o_id := Undefined; clientOrderId := Undefined;
     orderStatus := Str "Pending"; o_status := Undefined |}.

Definition traded_order : order :=
  {| orderId := Str "112111182199"; o_id := Undefined; clientOrderId := Undefined;
     orderStatus := Str "TRADED"; o_status := Undefined |}.

Definition cancel_refused : cancel_reply :=
  {| cr_status := Str "error"; cr_message := Str "Order already traded" |}.

(** An alert received 500 ms after mounting, and the sweeper's ticks of
    the first 21 seconds. *)
Definition alert_a1 : alert :=
  {| a_id := Str "a1"; a_body := "NIFTY 25000 CE BUY" |}.

Definition sweeps (t0 n : Z) : list event :=
  (fun k => Sweep (t0 + 1000 * k)) <$> seqZ 1 n.

Definition late_trace : list event :=
  Poll 500 500 (Resolved (Some [alert_a1])) :: sweeps 0 21.

(** The paper-trading panels showing one trade, and the backend's
    answers after a clear. *)
Definition one_raw_trade : PaperTrades.raw_trade :=
  {| PaperTrades.id := Num 1; PaperTrades.trading_symbol := "NIFTY";
     PaperTrades.side := "BUY"; PaperTrades.qty := qz 75;
     PaperTrades.order_type := "MARKET"; PaperTrades.exec_price := qz 105 |}.

Definition panel_with_trade : PaperTrades.world :=
  {| PaperTrades.ui :=
       {| PaperTrades.enabled := true; PaperTrades.trades := [one_raw_trade];
          PaperTrades.pairedTrades := []; PaperTrades.perSymbol := [];
          PaperTrades.summary := None; PaperTrades.loading := false |};
     PaperTrades.sent := []; PaperTrades.alerts := [] |}.

Definition clear_ok : PaperTrades.clear_reply :=
  {| PaperTrades.cl_status := Str "success" |}.

Definition empty_reply : PaperTrades.trades_reply :=
  {| PaperTrades.tr_status := Str "success";
     PaperTrades.raw_trades := Some []; PaperTrades.paired_trades := Some [];
     PaperTrades.per_symbol := Some [];
     PaperTrades.tr_overall :=
       Some {| PaperTrades.grand_total := qz 0;
               PaperTrades.total_realized_net := qz 0;
               PaperTrades.total_unrealized := qz 0 |} |}.

Definition one_open_trade : PaperTrading.trade :=
  {| PaperTrading.id := Num 1; PaperTrading.symbol := "NIFTY";
     PaperTrading.side := "BUY"; PaperTrading.qty := qz 75;
     PaperTrading.entry_price := PaperTrading.Present (qz 105);
     PaperTrading.exit_price := PaperTrading.IsNull;
     PaperTrading.gross_pnl := PaperTrading.Absent;
     PaperTrading.net_pnl := PaperTrading.Absent |}.

Definition old_panel_with_trade : PaperTrading.world :=
  {| PaperTrading.ui :=
       {| PaperTrading.enabled := true; PaperTrading.charge := qz 600;
          PaperTrading.buySlippage := qz 5; PaperTrading.sellSlippage := qz 7;
          PaperTrading.trades := [one_open_trade]; PaperTrading.cumNet := qz 0;
          PaperTrading.cumGross := qz 0; PaperTrading.loading := false |};
     PaperTrading.sent := []; PaperTrading.alerts := [] |}.

Definition old_empty_reply : PaperTrading.trades_reply :=
  {| PaperTrading.tr_trades := Some []; PaperTrading.cumulative_net := Some (qz 0);
     PaperTrading.cumulative_gross := Some (qz 0) |}.

(** The specification's FIFO example on one instrument. *)
Definition fifo_log (i : string) : Ledger.ledger :=
  [ {| Ledger.t_id := 1; Ledger.t_instrument := i; Ledger.t_side := Ledger.BUY;
       Ledger.t_qty := 10; Ledger.t_price := 100 |};
    {| Ledger.t_id := 2; Ledger.t_instrument := i; Ledger.t_side := Ledger.BUY;
       Ledger.t_qty := 5; Ledger.t_price := 102 |};
    {| Ledger.t_id := 3; Ledger.t_instrument := i; Ledger.t_side := Ledger.SELL;
       Ledger.t_qty := 12; Ledger.t_price := 110 |} ].

(** The specification's reversal example: long 5, then SELL 8. *)
Definition reversal_log (i : string) : Ledger.ledger :=
  [ {| Ledger.t_id := 1; Ledger.t_instrument := i; Ledger.t_side := Ledger.BUY;
       Ledger.t_qty := 5; Ledger.t_price := 100 |};
    {| Ledger.t_id := 2; Ledger.t_instrument := i; Ledger.t_side := Ledger.SELL;
       Ledger.t_qty := 8; Ledger.t_price := 90 |} ].

End Examples.

Import Examples.

Module Inputs.

Import App.

(** A pending order that carries a [clientOrderId] only. *)
Definition client_only_order : order :=
  {| orderId := Undefined; o_id := Undefined; clientOrderId := Str "web-17";
     orderStatus := Str "PENDING"; o_status := Undefined |}.

(** The order book showing a pending and a traded order. *)
Definition book_world : world :=
  {| ui := setOrders [pending_order; traded_order] initial_app; sent := [] |}.

(** A stand-in for the runtime's case tables, for inputs that are
    ASCII and never reach it. *)
Definition no_tables (s : string) : string := s.

(** An order whose status is spelled with a dotless i, which the
    runtime's [toUpperCase] turns into [I]. *)
Definition dotless_order : order :=
  {| orderId := Str "112111182200"; o_id := Undefined; clientOrderId := Undefined;
     orderStatus := Str "pendıng"; o_status := Undefined |}.

Definition cancel_accepted : cancel_reply :=
  {| cr_status := Str "success"; cr_message := Str "Order cancelled" |}.

(** A search result as the backend sends it, before [pickInstrument]. *)
Definition tcs_found : instrument :=
  {| tradingSymbol := "TCS"; securityId := Num 11536;
     inst_security_id := Undefined; inst_segment := "NSE_EQ";
     inst_expiry := "" |}.

(** A search result without a security id. *)
Definition nifty_no_id : instrument :=
  {| tradingSymbol := "NIFTY"; securityId := Str "";
     inst_security_id := Str ""; inst_segment := "NSE_FNO";
     inst_expiry := "2025-09-30" |}.

Definition no_id_world : world :=
  world_with (form_with (Some nifty_no_id) "MARKET" Blank).

Definition resolve_found : resolve_reply :=
  {| rr_inst := Some tcs_found; rr_message := Undefined |}.

Definition resolve_missing : resolve_reply :=
  {| rr_inst := None; rr_message := Str "Symbol not found" |}.

Definition status_ok : Account.status_reply :=
  {| Account.st_status := Str "ok";
     Account.instruments_db_current_today := Bool true;
     Account.broker_ready := Bool true;
     Account.st_message := Undefined |}.

Definition account_mounted : Account.world :=
  {| Account.ui := initial_app; Account.sent := [] |}.

Definition card_a1 : card := {| c_alert := alert_a1; _expiry := 500 + 20000 |}.

End Inputs.

Import Inputs.

(* ===================================================================== *)
(** * Holdings and positions: the P&L column *)
(* ===================================================================== *)

Section ProfitAndLoss.

Import App.
Local Open Scope Qc_scope.

Lemma sign_pos (q : Qc) : 0 < q -> sign q = 1.
Proof.
  intros H. unfold sign.
  destruct (q ?= 0) eqn:E; try reflexivity.
  - apply (proj2 (Qceq_alt q 0)) in E. subst q. exfalso.
    exact (Qclt_not_eq _ _ H eq_refl).
  - apply (proj2 (Qclt_alt q 0)) in E. exfalso.
    exact (Qclt_not_eq _ _ (Qclt_trans _ _ _ H E) eq_refl).
Qed.

Lemma sign_neg (q : Qc) : q < 0 -> sign q = - 1.
Proof.
  intros H. unfold sign. rewrite (proj1 (Qclt_alt q 0) H). reflexivity.
Qed.

Lemma sign_zero : sign 0 = 0.
Proof. reflexivity. Qed.

(** The product with the sign is the product with the magnitude: equal
    to the signed product for a long or flat quantity, its opposite
    for a short one. *)
Lemma unrealized_long (last avg net : Qc) :
  0 <= net -> unrealized_pnl last avg net = (last - avg) * net.
Proof.
  intros H. unfold unrealized_pnl.
  destruct (Qcle_lt_or_eq _ _ H) as [Hlt | Heq].
  - rewrite (sign_pos _ Hlt). ring.
  - subst net. rewrite sign_zero. ring.
Qed.

Lemma unrealized_short (last avg net : Qc) :
  net < 0 -> unrealized_pnl last avg net = - ((last - avg) * net).
Proof.
  intros H. unfold unrealized_pnl. rewrite (sign_neg _ H). ring.
Qed.

Lemma opposite_self (x : Qc) : x = - x -> x = 0.
Proof.
  intros H.
  assert (H2 : (1 + 1) * x = 0).
  { transitivity (x + - x); [ | ring ]. rewrite <- H. ring. }
  destruct (Qcmult_integral _ _ H2) as [H1 | H1]; [ | exact H1 ].
  exfalso. apply (f_equal this) in H1. vm_compute in H1. discriminate.
Qed.

Lemma pnl_agrees_iff (last avg net : Qc) :
  (last - avg) * net = unrealized_pnl last avg net
  <-> (0 <= net \/ last = avg).
Proof.
  split.
  - intros H. destruct (Qclt_le_dec net 0) as [Hneg | Hpos]; [ | by left ].
    right. rewrite (unrealized_short _ _ _ Hneg) in H.
    apply opposite_self in H.
    destruct (Qcmult_integral _ _ H) as [H1 | H1].
    + assert (E : last = last - avg + avg) by ring. rewrite E, H1. ring.
    + subst net. exfalso. exact (Qclt_not_eq _ _ Hneg eq_refl).
  - intros [Hpos | Heq].
    + by rewrite unrealized_long.
    + subst. unfold unrealized_pnl. ring.
Qed.

(** C1, as stated, fails: for the net short position above the table
    reports (90 - 100) x (-5) = 50, while the formula with the extra
    sign factor gives -50. *)
Lemma C1_short_position_counterexample :
  r_pnl (position_row short_position) = qz 50
  /\ unrealized_pnl (r_ltp (position_row short_position))
                    (r_avg (position_row short_position))
                    (r_qty (position_row short_position)) = qz (-50)
  /\ r_pnl (position_row short_position)
     <> unrealized_pnl (r_ltp (position_row short_position))
                       (r_avg (position_row short_position))
                       (r_qty (position_row short_position)).
Proof.
  split; [ reflexivity | split; [ reflexivity | ] ].
  intros H. apply (f_equal this) in H. vm_compute in H. discriminate.
Qed.

(** C1, amended: in the positions table and in the holdings table the
    reported P&L is (last price - average cost) x quantity, where each
    of the three is the first field present among its two names, else
    0; there is no further sign factor.  It equals the specification's
    formula exactly when the quantity is not negative or the last
    price equals the average cost. *)
Theorem C1_reported_pnl :
  (forall p : position,
     let r := position_row p in
     r_avg r = num_or (buyAvg p) (num_or (avgPrice p) 0)
     /\ r_ltp r = num_or (p_ltp p) (num_or (p_lastTradedPrice p) 0)
     /\ r_qty r = num_or (netQty p) (num_or (p_quantity p) 0)
     /\ r_pnl r = (r_ltp r - r_avg r) * r_qty r
     /\ (r_pnl r = unrealized_pnl (r_ltp r) (r_avg r) (r_qty r)
         <-> (0 <= r_qty r \/ r_ltp r = r_avg r)))
  /\ (forall h : holding,
        let r := holding_row h in
        r_avg r = num_or (avgCostPrice h) (num_or (averagePrice h) 0)
        /\ r_ltp r = num_or (h_lastTradedPrice h) (num_or (h_ltp h) 0)
        /\ r_qty r = num_or (totalQty h) (num_or (h_quantity h) 0)
        /\ r_pnl r = (r_ltp r - r_avg r) * r_qty r
        /\ (r_pnl r = unrealized_pnl (r_ltp r) (r_avg r) (r_qty r)
            <-> (0 <= r_qty r \/ r_ltp r = r_avg r))).
Proof.
  split; intros x r; subst r; cbn [position_row holding_row
    r_avg r_ltp r_qty r_pnl]; repeat split; try reflexivity;
    apply pnl_agrees_iff.
Qed.

End ProfitAndLoss.

(* ===================================================================== *)
(** * PaperTrading.jsx: open and closed trades *)
(* ===================================================================== *)

Section OpenClosed.

Import PaperTrading.

Lemma is_closed_not_open (t : trade) : is_closed t = negb (is_open t).
Proof. unfold is_closed, is_open. by rewrite negb_orb. Qed.

Lemma is_open_iff (t : trade) :
  is_open t = true <-> exit_price t = IsNull \/ exit_price t = Absent.
Proof.
  unfold is_open. destruct (exit_price t); cbn; split; intros H;
    try discriminate; auto; destruct H; discriminate.
Qed.

Lemma is_closed_iff (t : trade) :
  is_closed t = true <-> exists v, exit_price t = Present v.
Proof.
  unfold is_closed. destruct (exit_price t); cbn; split; intros H;
    try discriminate; eauto; destruct H; discriminate.
Qed.

Lemma complementary_filters_length {A} (p q : A -> bool) (l : list A) :
  (forall x, q x = negb (p x)) ->
  (length (List.filter p l) + length (List.filter q l))%nat = length l.
Proof.
  intros Hq. induction l as [ | x l IH ]; [ reflexivity | ].
  cbn [List.filter]. rewrite (Hq x).
  destruct (p x); cbn [negb length]; lia.
Qed.

(** C10: every trade of the list lands in exactly one of [openTrades]
    (exit price [null] or [undefined]) and [closedTrades] (exit price
    present), the two counts add up to the number of trades, and the
    list so split is the one the endpoint returned. *)
Theorem C10_open_closed_partition :
  (forall (ts : list trade) (t : trade),
      In t ts ->
      (In t (openTrades ts) /\ ~ In t (closedTrades ts)
       /\ (exit_price t = IsNull \/ exit_price t = Absent))
      \/ (~ In t (openTrades ts) /\ In t (closedTrades ts)
          /\ exists v, exit_price t = Present v))
  /\ (forall ts : list trade,
        (length (openTrades ts) + length (closedTrades ts))%nat = length ts)
  /\ (forall (d : trades_reply) (w : world),
        trades (ui (exec (fetchTrades (Resolved (Some d))) w))
        = default [] (tr_trades d)).
Proof.
  split; [ | split ].
  - intros ts t Hin. unfold openTrades, closedTrades.
    rewrite !filter_In, is_closed_not_open.
    destruct (is_open t) eqn:E.
    + left. repeat split; auto.
      * intros [_ H]; discriminate.
      * by apply is_open_iff.
    + right. repeat split; auto.
      * intros [_ H]; discriminate.
      * apply is_closed_iff. by rewrite is_closed_not_open, E.
  - intros ts. apply complementary_filters_length, is_closed_not_open.
  - intros d w. reflexivity.
Qed.

End OpenClosed.

(* ===================================================================== *)
(** * The paper ledger: the FIFO example *)
(* ===================================================================== *)

Section Fifo.

Import Ledger.

(** Recording a trade touches only its instrument's queue. *)
Lemma apply_trade_fresh (t : trade) :
  apply_trade empty_book t
  = {| open_lots := {[ t_instrument t := [lot_of t (t_qty t)] ]}; closed := [] |}.
Proof.
  unfold apply_trade, empty_book. cbn [open_lots closed].
  rewrite lookup_empty. cbn [default record_on app].
  by rewrite insert_empty.
Qed.

Lemma apply_trade_single (i : string) (lots : list lot)
    (done_ : list round_trip) (t : trade) :
  t_instrument t = i ->
  apply_trade {| open_lots := {[ i := lots ]}; closed := done_ |} t
  = {| open_lots := {[ i := (record_on t lots).2 ]};
       closed := done_ ++ (record_on t lots).1 |}.
Proof.
  intros <-. unfold apply_trade. cbn [open_lots closed].
  rewrite lookup_singleton_eq. cbn [default from_option id].
  destruct (record_on t lots) as [rts lots']. cbn [fst snd].
  by rewrite insert_singleton_eq.
Qed.

(** *** Conservation (section 3 of the specification): the net open
    quantity of an instrument is the sum of the signed quantities of
    its trades. *)

Lemma direction_opposite (a b : side) : a <> b -> direction a = - direction b.
Proof. by destruct a, b. Qed.

Lemma net_of_lots_app (l1 l2 : list lot) :
  net_of_lots (l1 ++ l2) = net_of_lots l1 + net_of_lots l2.
Proof.
  induction l1 as [ | l l1 IH ]; [ reflexivity | ].
  cbn [app]. unfold net_of_lots in *. cbn [foldr]. rewrite IH. lia.
Qed.

Lemma match_lots_net (t : trade) (s : side) (lots : list lot) :
  one_sided s lots ->
  forall remaining, 0 <= remaining ->
    let r := match_lots t remaining lots in
    net_of_lots r.1.2 = net_of_lots lots - direction s * (remaining - r.2)
    /\ 0 <= r.2
    /\ (0 < r.2 -> r.1.2 = [])
    /\ one_sided s r.1.2.
Proof.
  unfold one_sided.
  induction lots as [ | l rest IH ]; intros Hall remaining Hpos; cbn zeta.
  - cbn. repeat split; try done; lia.
  - apply Forall_cons in Hall as [[Hside Hq] Hrest].
    cbn [match_lots].
    destruct (Z.leb_spec remaining 0) as [Hz | Hnz].
    { assert (remaining = 0) as -> by lia. cbn [fst snd].
      split; [ lia | ]. split; [ lia | ]. split; [ lia | ].
      by apply Forall_cons. }
    destruct (Z.ltb_spec remaining (lot_qty l)) as [Hlt | Hge].
    { cbn [fst snd]. split; [ | split; [ lia | split; [ lia | ] ] ].
      - unfold net_of_lots, signed_qty. cbn [foldr shrink lot_side lot_qty].
        rewrite Hside. lia.
      - apply Forall_cons. split; [ | done ]. cbn. split; [ done | lia ]. }
    specialize (IH Hrest (remaining - lot_qty l) ltac:(lia)). cbn zeta in IH.
    destruct (match_lots t (remaining - lot_qty l) rest) as [[rts lots'] un].
    cbn [fst snd] in *. destruct IH as (Hnet & Hun & Hnil & Hone).
    repeat split; try done.
    unfold net_of_lots, signed_qty in *. cbn [foldr]. rewrite Hside. lia.
Qed.

Lemma record_on_net (t : trade) (s : side) (lots : list lot) :
  one_sided s lots ->
  0 < t_qty t ->
  net_of_lots (record_on t lots).2
  = net_of_lots lots + signed_qty (t_side t) (t_qty t)
  /\ exists s', one_sided s' (record_on t lots).2.
Proof.
  intros Hone Hq. unfold record_on.
  destruct lots as [ | l rest ].
  - cbn. split; [ unfold signed_qty; lia | ].
    exists (t_side t). by repeat constructor.
  - destruct (decide (lot_side l = t_side t)) as [Hsame | Hopp]; cbn [snd].
    + split.
      * rewrite net_of_lots_app. cbn. unfold signed_qty. lia.
      * exists s. apply Forall_app. split; [ done | ].
        apply Forall_cons in Hone as [[Hside _] _].
        repeat constructor; cbn; [ congruence | done ].
    + assert (Hs : lot_side l = s).
      { by apply Forall_cons in Hone as [[Hside _] _]. }
      assert (Hdir : direction (t_side t) = - direction s).
      { apply direction_opposite. congruence. }
      pose proof (match_lots_net t s (l :: rest) Hone (t_qty t) ltac:(lia)) as H.
      cbn zeta in H.
      destruct (match_lots t (t_qty t) (l :: rest)) as [[rts lots'] un].
      cbn [fst snd] in *. destruct H as (Hnet & Hun & Hnil & Hone').
      destruct (Z.ltb_spec 0 un) as [Hrev | Hnone].
      * rewrite (Hnil Hrev) in *. cbn [app]. split.
        -- unfold net_of_lots, signed_qty in *. cbn [foldr lot_of lot_side lot_qty] in *.
           rewrite Hdir. lia.
        -- exists (t_side t). by repeat constructor.
      * split; [ | by exists s ].
        unfold signed_qty. rewrite Hdir. replace un with 0 in Hnet by lia. lia.
Qed.

Lemma apply_trade_net (b : book) (t : trade) :
  well_formed b ->
  0 < t_qty t ->
  well_formed (apply_trade b t)
  /\ forall i, net_position (apply_trade b t) i
               = net_position b i
                 + (if decide (t_instrument t = i)
                    then signed_qty (t_side t) (t_qty t) else 0).
Proof.
  intros Hwf Hq. unfold apply_trade, net_position. cbn zeta.
  assert (Hq' : exists s, one_sided s (default [] (open_lots b !! t_instrument t))).
  { destruct (open_lots b !! t_instrument t) as [lots | ] eqn:E.
    - by apply (Hwf _ _ E).
    - exists BUY. constructor. }
  destruct Hq' as [s Hone].
  destruct (record_on_net t s _ Hone Hq) as (Hnet & Hone').
  destruct (record_on t (default [] (open_lots b !! t_instrument t)))
    as [rts lots'] eqn:E.
  cbn [fst snd open_lots] in *. split.
  - intros i lots Hl. cbn [open_lots] in Hl.
    destruct (decide (t_instrument t = i)) as [<- | Hne].
    + rewrite lookup_insert_eq in Hl. by injection Hl as <-.
    + rewrite lookup_insert_ne in Hl by done. by apply (Hwf _ _ Hl).
  - intros i. cbn [open_lots].
    destruct (decide (t_instrument t = i)) as [<- | Hne].
    + rewrite lookup_insert_eq. cbn [default from_option id]. exact Hnet.
    + rewrite lookup_insert_ne by done. lia.
Qed.

Lemma replay_from_net (log : ledger) (b : book) :
  well_formed b ->
  Forall (fun t => 0 < t_qty t) log ->
  forall i, net_position (fold_left apply_trade log b) i
            = net_position b i + signed_sum i log.
Proof.
  revert b. induction log as [ | t log IH ]; intros b Hwf Hpos i.
  - cbn. lia.
  - apply Forall_cons in Hpos as [Hq Hpos].
    destruct (apply_trade_net b t Hwf Hq) as [Hwf' Hnet].
    cbn [fold_left]. rewrite (IH _ Hwf' Hpos), Hnet.
    cbn [signed_sum foldr]. fold (signed_sum i log). lia.
Qed.

(** For any log of trades of positive quantity, the net open quantity
    of every instrument is the sum of its trades' signed quantities. *)
Lemma conservation (log : ledger) (i : string) :
  Forall (fun t => 0 < t_qty t) log ->
  net_position (replay log) i = signed_sum i log.
Proof.
  intros Hpos. unfold replay.
  rewrite (replay_from_net log empty_book); [ | | done ].
  - unfold net_position, empty_book. cbn [open_lots].
    rewrite lookup_empty. cbn. lia.
  - intros j lots H. cbn in H. by rewrite lookup_empty in H.
Qed.

(** The reversal example of the specification: from net long 5, a
    SELL 8 closes the 5 in one round trip and opens a short of 3 at
    the sell price. *)
Lemma reversal_example (i : string) :
  let s := snapshot (reversal_log i) in
  closedRoundTrips s
  = [ {| rt_instrument := i; rt_qty := 5; rt_entry_price := 100;
         rt_exit_price := 90; rt_gross := -50; rt_entry_id := 1;
         rt_exit_id := 2 |} ]
  /\ openPositions s
     = {[ i := [ {| lot_trade := 2; lot_side := SELL; lot_qty := 3;
                    lot_price := 90 |} ] ]}
  /\ net_position (replay (reversal_log i)) i = -3.
Proof.
  cbn zeta. unfold snapshot, net_position, replay, reversal_log. cbn [fold_left].
  rewrite apply_trade_fresh. cbn [t_instrument].
  rewrite (apply_trade_single i) by reflexivity.
  cbn. rewrite lookup_singleton_eq. repeat split.
  by apply map_filter_singleton_True.
Qed.

(** C2: on the log BUY 10 at 100, BUY 5 at 102, SELL 12 at 110 of one
    instrument the engine closes 10 at 100 and then 2 at 102 against
    the sale, leaves 3 long at 102 unmatched, and reports a gross P&L
    of 116. *)
Theorem C2_fifo_example (i : string) :
  let s := snapshot (fifo_log i) in
  closedRoundTrips s
  = [ {| rt_instrument := i; rt_qty := 10; rt_entry_price := 100;
         rt_exit_price := 110; rt_gross := 100; rt_entry_id := 1;
         rt_exit_id := 3 |};
      {| rt_instrument := i; rt_qty := 2; rt_entry_price := 102;
         rt_exit_price := 110; rt_gross := 16; rt_entry_id := 2;
         rt_exit_id := 3 |} ]
  /\ openPositions s
     = {[ i := [ {| lot_trade := 2; lot_side := BUY; lot_qty := 3;
                    lot_price := 102 |} ] ]}
  /\ total_realized_gross s = 116.
Proof.
  cbn zeta. unfold snapshot, replay, fifo_log. cbn [fold_left].
  rewrite apply_trade_fresh. cbn [t_instrument].
  rewrite (apply_trade_single i) by reflexivity.
  rewrite (apply_trade_single i) by reflexivity.
  cbn. repeat split.
  by apply map_filter_singleton_True.
Qed.

End Fifo.

(* ===================================================================== *)
(** * Placing an order: the request that is sent *)
(* ===================================================================== *)

Section PlaceOrder.

Import App.

Lemma truthy_not_nullish (v : scalar) : truthy v = true -> nullish v = false.
Proof. by destruct v. Qed.

Lemma Qc_or_zero (x : Qc) : Qc_or x 0%Qc = x.
Proof. unfold Qc_or. by destruct (decide (x = 0%Qc)) as [-> | ]. Qed.

(** With a security id at hand the current handler sends exactly one
    request, the POST, and its price is [Number(price)] whatever the
    order type. *)
Lemma handlePlaceOrder_sends (r : http resolve_reply) (w : world) (inst : instrument) :
  selectedInstrument (form (ui w)) = Some inst ->
  truthy (securityId inst) = true ->
  sent (exec (handlePlaceOrder r) w)
  = sent w ++ [PostOrderPlace (place_params_of (form (ui w)) inst (securityId inst))].
Proof.
  intros Hsel Hid. destruct w as [a s]. cbn in Hsel.
  unfold handlePlaceOrder, exec, mbind, M_bind, bind, gets. cbn.
  rewrite Hsel. unfold coalesce. rewrite (truthy_not_nullish _ Hid), Hid.
  reflexivity.
Qed.

Lemma old_handlePlaceOrder_sends (w : world) (inst : instrument) :
  selectedInstrument (form (ui w)) = Some inst ->
  sent (exec AppOld.handlePlaceOrder w)
  = sent w ++ [PostOrderPlace (AppOld.place_params_of (form (ui w)) inst)].
Proof.
  intros Hsel. destruct w as [a s]. cbn in Hsel.
  unfold AppOld.handlePlaceOrder, exec, mbind, M_bind, bind, gets. cbn.
  rewrite Hsel. reflexivity.
Qed.

Lemma place_params_agree (f : form_state) (inst : instrument) :
  orderType f = "LIMIT" \/ Number (price f) = 0%Qc ->
  place_params_of f inst (securityId inst) = AppOld.place_params_of f inst.
Proof.
  intros Hprice. unfold place_params_of, AppOld.place_params_of.
  rewrite Qc_or_zero.
  destruct (decide (orderType f = "LIMIT")) as [ | Hne ].
  - by destruct (price f).
  - destruct Hprice as [ | -> ]; done.
Qed.

(** C8 at its failing input: the order type is MARKET and the hidden
    price box still holds 150; the current handler submits price 150,
    where the earlier handler submits 0. *)
Theorem C8_market_order_carries_stale_price :
  (exists p,
     sent (exec (handlePlaceOrder (Rejected network_down)) stale_price_world)
     = [PostOrderPlace p]
     /\ order_type p = "MARKET" /\ pp_price p = qz 150 /\ pp_price p <> 0%Qc)
  /\ (exists p,
        sent (exec AppOld.handlePlaceOrder stale_price_world) = [PostOrderPlace p]
        /\ order_type p = "MARKET" /\ pp_price p = 0%Qc).
Proof.
  split; eexists; (split; [ reflexivity | ]); repeat split.
  intros H. apply (f_equal this) in H. vm_compute in H. discriminate.
Qed.

(** C9 at its failing input: on the form state with order type MARKET
    and the hidden price box still holding 150, the two handlers send
    requests that agree in every parameter but the price, which is 150
    from the current handler and 0 from the earlier one. *)
Theorem C9_handlers_differ_on_stale_price :
  exists p q,
    sent (exec (handlePlaceOrder (Rejected network_down)) stale_price_world)
    = [PostOrderPlace p]
    /\ sent (exec AppOld.handlePlaceOrder stale_price_world) = [PostOrderPlace q]
    /\ symbol p = symbol q
    /\ security_id p = security_id q
    /\ pp_segment p = pp_segment q
    /\ pp_side p = pp_side q
    /\ pp_qty p = pp_qty q
    /\ order_type p = "MARKET" /\ order_type q = "MARKET"
    /\ product_type p = product_type q
    /\ pp_validity p = pp_validity q
    /\ pp_price p = qz 150
    /\ pp_price q = 0%Qc
    /\ p <> q.
Proof.
  do 2 eexists. repeat split; try reflexivity.
  intros H. apply (f_equal pp_price) in H. apply (f_equal this) in H.
  vm_compute in H. discriminate.
Qed.

(** Away from that input the two handlers agree: with no instrument
    selected neither sends a request; with a selected instrument whose
    [securityId] is truthy, and an order type LIMIT or a price box that
    is blank or zero, they send the same [/order/place] parameters and
    leave the same state. *)
Lemma handlers_agree (r : http resolve_reply) (w : world) :
  (forall inst,
      selectedInstrument (form (ui w)) = Some inst ->
      truthy (securityId inst) = true
      /\ (orderType (form (ui w)) = "LIMIT"
          \/ Number (price (form (ui w))) = 0%Qc)) ->
  exec (handlePlaceOrder r) w = exec AppOld.handlePlaceOrder w
  /\ (selectedInstrument (form (ui w)) = None ->
      sent (exec (handlePlaceOrder r) w) = sent w).
Proof.
  intros Hsel. destruct w as [a s]. cbn in Hsel.
  unfold handlePlaceOrder, AppOld.handlePlaceOrder, exec, mbind, M_bind,
    bind, gets. cbn -[place_params_of AppOld.place_params_of].
  destruct (selectedInstrument (form a)) as [inst | ].
  - destruct (Hsel inst eq_refl) as [Hid Hprice]. unfold coalesce.
    rewrite (truthy_not_nullish _ Hid), Hid.
    cbn -[place_params_of AppOld.place_params_of].
    split; [ | discriminate ].
    by rewrite (place_params_agree _ _ Hprice).
  - split; reflexivity.
Qed.

Lemma handlers_agree_on_limit_order :
  exec (handlePlaceOrder (Rejected network_down)) limit_world
  = exec AppOld.handlePlaceOrder limit_world.
Proof.
  apply (handlers_agree (Rejected network_down) limit_world).
  intros inst H. injection H as <-. split; [ reflexivity | left; reflexivity ].
Defined.

End PlaceOrder.

(* ===================================================================== *)
(** * The live-alerts feed *)
(* ===================================================================== *)

Section Feed.

Import App.

(** ** One poll *)

Lemma scan_acc (now : Z) (arr : list alert) (seen : gset scalar) (acc : list card) :
  scan now arr seen acc
  = ((scan now arr seen []).1, acc ++ (scan now arr seen []).2).
Proof.
  revert seen acc. induction arr as [ | a rest IH ]; intros seen acc; cbn [scan].
  - by rewrite app_nil_r.
  - destruct (negb (truthy (a_id a))); [ apply IH | ].
    destruct (decide (a_id a ∈ seen)); [ apply IH | ].
    rewrite (IH _ (acc ++ _)), (IH _ ([] ++ _)). cbn [fst snd].
    by rewrite <- !app_assoc.
Qed.

Lemma scan_cons (now : Z) (a : alert) (rest : list alert) (seen : gset scalar) :
  scan now (a :: rest) seen []
  = if negb (truthy (a_id a)) then scan now rest seen []
    else if decide (a_id a ∈ seen) then scan now rest seen []
    else ((scan now rest ({[a_id a]} ∪ seen) []).1,
          {| c_alert := a; _expiry := now + 20000 |}
            :: (scan now rest ({[a_id a]} ∪ seen) []).2).
Proof.
  cbn [scan]. destruct (negb (truthy (a_id a))); [ done | ].
  destruct (decide (a_id a ∈ seen)); [ done | ].
  by rewrite scan_acc.
Qed.

(** What the loop guarantees: the seen-set only grows; the new cards
    have pairwise different ids, each truthy, not seen before, seen
    afterwards, and stamped with [now + 20000]. *)
Lemma scan_spec (now : Z) (arr : list alert) (seen : gset scalar) :
  seen ⊆ (scan now arr seen []).1
  /\ NoDup (card_id <$> (scan now arr seen []).2)
  /\ (forall c, c ∈ (scan now arr seen []).2 ->
        truthy (card_id c) = true
        /\ (card_id c ∉ seen)
        /\ (card_id c ∈ (scan now arr seen []).1)
        /\ _expiry c = now + 20000
        /\ (c_alert c ∈ arr)).
Proof.
  revert seen. induction arr as [ | a rest IH ]; intros seen.
  - cbn. split; [ done | ]. split; [ constructor | ].
    intros c Hc. by apply elem_of_nil in Hc.
  - rewrite scan_cons.
    destruct (truthy (a_id a)) eqn:Ht; cbn [negb].
    2:{ destruct (IH seen) as (Hs & Hn & Hc). repeat split; try done.
        all: try (by apply Hc). right. by apply Hc. }
    destruct (decide (a_id a ∈ seen)) as [Hin | Hnew].
    { destruct (IH seen) as (Hs & Hn & Hc). repeat split; try done.
      all: try (by apply Hc). right. by apply Hc. }
    destruct (IH ({[a_id a]} ∪ seen)) as (Hs & Hn & Hc). cbn [fst snd].
    assert (Hself : a_id a ∈ ({[a_id a]} ∪ seen : gset scalar)).
    { apply elem_of_union_l. by apply elem_of_singleton. }
    split; [ | split ].
    + etrans; [ | exact Hs ]. apply union_subseteq_r.
    + rewrite fmap_cons. apply NoDup_cons. split; [ | done ].
      intros Hdup. apply list_elem_of_fmap in Hdup as (c & Hid & Hcin).
      destruct (Hc c Hcin) as (_ & Hfresh & _).
      apply Hfresh. by rewrite <- Hid.
    + intros c Hcin. apply elem_of_cons in Hcin as [-> | Hcin].
      * cbn. repeat split; try done; [ by apply Hs | left ].
      * destruct (Hc c Hcin) as (H1 & H2 & H3 & H4 & H5).
        repeat split; try done; [ | by right ].
        intros Hin. apply H2. by apply elem_of_union_r.
Qed.

Lemma fetchAlerts_rejected (e : exn) (now tupd : Z) (w : world) :
  exec (fetchAlerts (Rejected e) now tupd) w
  = {| ui := ui w; sent := sent w ++ [GetAlerts 100] |}.
Proof. reflexivity. Qed.

Lemma fetchAlerts_resolved (r : option (list alert)) (now tupd : Z) (w : world) :
  exec (fetchAlerts (Resolved r) now tupd) w
  = {| ui :=
         (if decide ((scan now (default [] r) (seenAlertIds (ui w)) []).2 = [])
          then set_seenAlertIds
                 (scan now (default [] r) (seenAlertIds (ui w)) []).1 (ui w)
          else setLiveAlerts
                 (fun prev =>
                    (scan now (default [] r) (seenAlertIds (ui w)) []).2
                    ++ filter (fun x => tupd < _expiry x) prev)
                 (set_seenAlertIds
                    (scan now (default [] r) (seenAlertIds (ui w)) []).1 (ui w)));
       sent := sent w ++ [GetAlerts 100] |}.
Proof.
  unfold fetchAlerts, exec, try_catch, mbind, M_bind, bind, gets, await. cbn.
  destruct (scan now (default [] r) (seenAlertIds (ui w)) []) as [s n]. cbn.
  by destruct (decide (n = [])).
Qed.

(** C5: when the alerts request fails, the component's state after
    [fetchAlerts] is the state before it, cell for cell: the live
    alerts, the seen-set, orders, positions, holdings, funds, form and
    messages; the only trace of the poll is the request itself. *)
Theorem C5_failed_poll_changes_nothing :
  forall (e : exn) (now tupd : Z) (w : world),
    ui (exec (fetchAlerts (Rejected e) now tupd) w) = ui w
    /\ sent (exec (fetchAlerts (Rejected e) now tupd) w) = sent w ++ [GetAlerts 100].
Proof. intros e now tupd w. by rewrite fetchAlerts_rejected. Qed.

(** ** One event *)

Lemma seen_step (w : world) (e : event) :
  seenAlertIds (ui (step w e))
  = match e with
    | Poll now _ (Resolved r) =>
        (scan now (default [] r) (seenAlertIds (ui w)) []).1
    | _ => seenAlertIds (ui w)
    end.
Proof.
  destruct e as [now tupd [err | r] | t]; cbn [step]; try reflexivity.
  rewrite fetchAlerts_resolved. cbn [ui].
  by destruct (decide (_ = [])).
Qed.

Lemma live_step (w : world) (e : event) :
  liveAlerts (ui (step w e))
  = match e with
    | Poll now tupd (Resolved r) =>
        if decide ((scan now (default [] r) (seenAlertIds (ui w)) []).2 = [])
        then liveAlerts (ui w)
        else (scan now (default [] r) (seenAlertIds (ui w)) []).2
             ++ filter (fun x => tupd < _expiry x) (liveAlerts (ui w))
    | Poll _ _ (Rejected _) => liveAlerts (ui w)
    | Sweep t => filter (fun x => t < _expiry x) (liveAlerts (ui w))
    end.
Proof.
  destruct e as [now tupd [err | r] | t]; cbn [step]; try reflexivity.
  rewrite fetchAlerts_resolved. cbn [ui].
  by destruct (decide (_ = [])).
Qed.

Lemma new_cards_spec (w : world) (e : event) :
  seenAlertIds (ui w) ⊆ seenAlertIds (ui (step w e))
  /\ NoDup (card_id <$> new_cards w e)
  /\ (forall c, c ∈ new_cards w e ->
        truthy (card_id c) = true
        /\ (card_id c ∉ seenAlertIds (ui w))
        /\ (card_id c ∈ seenAlertIds (ui (step w e)))
        /\ exists now tupd r, e = Poll now tupd r /\ _expiry c = now + 20000).
Proof.
  rewrite seen_step.
  destruct e as [now tupd [err | r] | t]; cbn [new_cards].
  1,3: split; [ done | split; [ constructor | ] ];
       intros c Hc; by apply elem_of_nil in Hc.
  destruct (scan_spec now (default [] r) (seenAlertIds (ui w))) as (Hs & Hn & Hc).
  split; [ done | split; [ done | ] ].
  intros c Hin. destruct (Hc c Hin) as (H1 & H2 & H3 & H4 & _).
  repeat split; try done. by exists now, tupd, (Resolved r).
Qed.

(** After an event the display is the event's new cards followed by a
    part of the previous display. *)
Lemma live_step_shape (w : world) (e : event) :
  exists kept,
    kept `sublist_of` liveAlerts (ui w)
    /\ liveAlerts (ui (step w e)) = new_cards w e ++ kept.
Proof.
  rewrite live_step.
  destruct e as [now tupd [err | r] | t]; cbn [new_cards].
  - by exists (liveAlerts (ui w)).
  - destruct (decide (_ = [])) as [-> | _].
    + by exists (liveAlerts (ui w)).
    + eexists. split; [ | reflexivity ].
      apply (sublist_filter (fun x => tupd < _expiry x)).
  - eexists. split; [ | reflexivity ].
    apply (sublist_filter (fun x => t < _expiry x)).
Qed.

(** ** A run of events *)

Lemma run_cons (w : world) (e : event) (evs : list event) :
  run w (e :: evs) = run (step w e) evs.
Proof. reflexivity. Qed.

Lemma run_app (w : world) (l1 l2 : list event) :
  run w (l1 ++ l2) = run (run w l1) l2.
Proof. apply fold_left_app. Qed.

(** C4: over any run of polls and sweeps, the cards put on the display
    have pairwise different ids; each such id is truthy, was not in
    the seen-set before and is in it ever after; the seen-set never
    loses an id; and nothing reaches the display but an event's new
    cards. *)
Theorem C4_at_most_one_card_per_id :
  forall (w : world) (evs : list event),
    NoDup (card_id <$> added w evs)
    /\ (forall c, c ∈ added w evs ->
          truthy (card_id c) = true
          /\ (card_id c ∉ seenAlertIds (ui w))
          /\ (card_id c ∈ seenAlertIds (ui (run w evs))))
    /\ seenAlertIds (ui w) ⊆ seenAlertIds (ui (run w evs))
    /\ (forall e, exists kept,
          kept `sublist_of` liveAlerts (ui w)
          /\ liveAlerts (ui (step w e)) = new_cards w e ++ kept).
Proof.
  intros w evs. revert w.
  induction evs as [ | e rest IH ]; intros w.
  - cbn. split; [ constructor | ]. split.
    + intros c Hc. by apply elem_of_nil in Hc.
    + split; [ done | ]. intros e. apply live_step_shape.
  - destruct (IH (step w e)) as (Hn & Hc & Hs & _).
    destruct (new_cards_spec w e) as (Hs0 & Hn0 & Hc0).
    rewrite run_cons. cbn [added].
    split; [ | split; [ | split ] ].
    + rewrite fmap_app. apply NoDup_app. split; [ done | ]. split; [ | done ].
      intros x Hx Hx'.
      apply list_elem_of_fmap in Hx as (c & -> & Hcin).
      apply list_elem_of_fmap in Hx' as (c' & Heq & Hcin').
      destruct (Hc0 c Hcin) as (_ & _ & Hseen & _).
      destruct (Hc c' Hcin') as (_ & Hfresh & _).
      apply Hfresh. by rewrite <- Heq.
    + intros c Hin. apply elem_of_app in Hin as [Hin | Hin].
      * destruct (Hc0 c Hin) as (H1 & H2 & H3 & _).
        repeat split; try done. by apply Hs.
      * destruct (Hc c Hin) as (H1 & H2 & H3).
        repeat split; try done. intros Hold. apply H2. by apply Hs0.
    + by etrans.
    + intros e'. apply live_step_shape.
Qed.

(** ** Expiry *)

(** Right after a sweep every card left is unexpired. *)
Lemma sweep_removes_expired (w : world) (t : Z) (c : card) :
  c ∈ liveAlerts (ui (step w (Sweep t))) ->
  c ∈ liveAlerts (ui w) /\ t < _expiry c.
Proof.
  rewrite live_step. intros H. apply list_elem_of_filter in H. tauto.
Qed.

(** A card on display was there at the start or was stamped by a poll
    of the run with its clock reading plus 20000. *)
Lemma run_origin (w : world) (evs : list event) (c : card) :
  c ∈ liveAlerts (ui (run w evs)) ->
  c ∈ liveAlerts (ui w)
  \/ exists now tupd r, Poll now tupd r ∈ evs /\ _expiry c = now + 20000.
Proof.
  revert w. induction evs as [ | e rest IH ]; intros w Hc; [ by left | ].
  rewrite run_cons in Hc. destruct (IH _ Hc) as [Hstep | (now & tupd & r & Hin & Hexp)].
  - destruct (live_step_shape w e) as (kept & Hsub & Heq).
    rewrite Heq in Hstep. apply elem_of_app in Hstep as [Hnew | Hkept].
    + right. destruct (new_cards_spec w e) as (_ & _ & Hspec).
      destruct (Hspec c Hnew) as (_ & _ & _ & now & tupd & r & -> & Hexp).
      exists now, tupd, r. split; [ left | done ].
    + left. by eapply elem_of_sublist.
  - right. exists now, tupd, r. split; [ by right | done ].
Qed.

Lemma chronological_filter (P : event -> Prop) `{!forall e, Decision (P e)}
    (evs : list event) :
  chronological evs -> chronological (filter P evs).
Proof.
  unfold chronological. induction evs as [ | e rest IH ]; intros Hs; [ done | ].
  apply StronglySorted_cons in Hs as [Hall Hrest].
  rewrite filter_cons. destruct (decide (P e)); [ | by apply IH ].
  apply StronglySorted_cons. split; [ | by apply IH ].
  apply Forall_forall. intros x Hx. apply list_elem_of_filter in Hx as [_ Hx].
  by eapply Forall_forall in Hall.
Qed.

Lemma late_trace_chronological : chronological late_trace.
Proof.
  unfold chronological, late_trace, sweeps. vm_compute fmap.
  repeat (apply SSorted_cons; [ | repeat constructor; cbn; lia ]).
  constructor.
Qed.

Lemma late_trace_ticks (k : Z) :
  1 <= k -> 0 + 1000 * k <= 20700 -> Sweep (0 + 1000 * k) ∈ late_trace.
Proof.
  intros H1 H2. unfold late_trace, sweeps. right.
  apply list_elem_of_fmap. exists k. split; [ done | ].
  apply elem_of_seqZ. lia.
Qed.

Lemma late_trace_after_mount (e : event) : e ∈ late_trace -> 0 <= event_time e.
Proof.
  intros He. unfold late_trace, sweeps in He.
  apply elem_of_cons in He as [-> | He]; [ cbn; lia | ].
  apply list_elem_of_fmap in He as (k & -> & Hk).
  apply elem_of_seqZ in Hk. cbn. lia.
Qed.

Lemma late_trace_displayed :
  displayed mounted late_trace 20700
  = [ {| c_alert := alert_a1; _expiry := 500 + 20000 |} ].
Proof. by vm_compute. Qed.

(** C3, as stated, fails: an alert received at 500 is stamped 20500;
    the sweeper ticks at 20000 (too early) and at 21000, so at 20700
    the card is still on display, past its 20-second window.  (Later
    polls that fail or bring no new alert do not touch the list; the
    trace leaves them out.) *)
Lemma C3_displayed_past_expiry_counterexample :
  chronological late_trace
  /\ (forall k, 1 <= k -> 0 + 1000 * k <= 20700 -> Sweep (0 + 1000 * k) ∈ late_trace)
  /\ displayed mounted late_trace 20700
     = [ {| c_alert := alert_a1; _expiry := 500 + 20000 |} ]
  /\ ~ (forall c, c ∈ displayed mounted late_trace 20700 -> 20700 <= _expiry c).
Proof.
  split; [ apply late_trace_chronological | ].
  split; [ apply late_trace_ticks | ].
  split; [ apply late_trace_displayed | ].
  intros H. specialize (H {| c_alert := alert_a1; _expiry := 500 + 20000 |}).
  rewrite late_trace_displayed in H.
  specialize (H ltac:(left)). cbn in H. lia.
Qed.

(** C3, amended: when the sweeper ticks every 1000 ms from mounting,
    a card on display at time [t] was stamped by a poll with its clock
    reading plus 20000 ms, and [t] is less than 1000 ms past that
    expiry: an alert leaves the display at the first sweep at or after
    its expiry, so within 21 seconds of its receipt. *)
Theorem C3_alert_leaves_within_a_sweep_of_expiry
    (w : world) (t0 t : Z) (evs : list event) (c : card) :
  liveAlerts (ui w) = [] ->
  chronological evs ->
  (forall e, e ∈ evs -> t0 <= event_time e) ->
  (forall k, 1 <= k -> t0 + 1000 * k <= t -> Sweep (t0 + 1000 * k) ∈ evs) ->
  c ∈ displayed w evs t ->
  exists now tupd r,
    Poll now tupd r ∈ evs
    /\ now <= t
    /\ _expiry c = now + 20000
    /\ t < _expiry c + 1000.
Proof.
  intros Hempty Hchron Hmount Hticks Hc. unfold displayed in Hc.
  pose proof (chronological_filter (fun e => event_time e <= t) evs Hchron) as Hchron'.
  set (evs' := filter (fun e => event_time e <= t) evs) in *.
  assert (Hsub : forall e, e ∈ evs' -> e ∈ evs /\ event_time e <= t).
  { intros e He. apply list_elem_of_filter in He. tauto. }
  destruct (Z_lt_le_dec t (t0 + 1000)) as [Hearly | Hlate].
  - apply run_origin in Hc as [Hc | (now & tupd & r & Hin & Hexp)].
    { rewrite Hempty in Hc. by apply elem_of_nil in Hc. }
    destruct (Hsub _ Hin) as [Hin' Hle]. cbn in Hle.
    specialize (Hmount _ Hin'). cbn in Hmount.
    exists now, tupd, r. repeat split; try done. lia.
  - pose proof (Z.div_mod (t - t0) 1000 ltac:(lia)) as Hdm.
    pose proof (Z.mod_pos_bound (t - t0) 1000 ltac:(lia)) as Hmod.
    set (k := (t - t0) / 1000) in *.
    assert (Hk : 1 <= k) by lia.
    assert (Hts : t0 + 1000 * k <= t) by lia.
    assert (Hnext : t < t0 + 1000 * k + 1000) by lia.
    set (ts := t0 + 1000 * k) in *.
    assert (Hsw : Sweep ts ∈ evs').
    { apply list_elem_of_filter. split; [ done | ]. by apply Hticks. }
    apply list_elem_of_split in Hsw as (l1 & l2 & Hsplit).
    rewrite Hsplit in Hc, Hchron'. rewrite run_app, run_cons in Hc.
    apply run_origin in Hc as [Hc | (now & tupd & r & Hin & Hexp)].
    + apply sweep_removes_expired in Hc as [Hc Hfresh].
      apply run_origin in Hc as [Hc | (now & tupd & r & Hin & Hexp)].
      { rewrite Hempty in Hc. by apply elem_of_nil in Hc. }
      assert (Hin' : Poll now tupd r ∈ evs').
      { rewrite Hsplit. apply elem_of_app. by left. }
      destruct (Hsub _ Hin') as [Hin'' Hle]. cbn in Hle.
      exists now, tupd, r. repeat split; try done. lia.
    + apply StronglySorted_app in Hchron' as (_ & _ & Htail).
      apply StronglySorted_cons in Htail as [Hall _].
      eapply Forall_forall in Hall; [ | exact Hin ]. cbn in Hall.
      assert (Hin' : Poll now tupd r ∈ evs').
      { rewrite Hsplit. apply elem_of_app. right. by right. }
      destruct (Hsub _ Hin') as [Hin'' Hle]. cbn in Hle.
      exists now, tupd, r. repeat split; try done. lia.
Qed.

Lemma C3_alert_leaves_within_a_sweep_of_expiry_witness :
  exists now tupd r,
    Poll now tupd r ∈ late_trace
    /\ now <= 20700
    /\ _expiry {| c_alert := alert_a1; _expiry := 500 + 20000 |} = now + 20000
    /\ 20700 < _expiry {| c_alert := alert_a1; _expiry := 500 + 20000 |} + 1000.
Proof.
  apply (C3_alert_leaves_within_a_sweep_of_expiry mounted 0 20700 late_trace).
  - reflexivity.
  - apply late_trace_chronological.
  - apply late_trace_after_mount.
  - apply late_trace_ticks.
  - rewrite late_trace_displayed. left.
Defined.

End Feed.

(* ===================================================================== *)
(** * The order book: cancelling *)
(* ===================================================================== *)

Section Cancel.

Import App.

Lemma append_cons (c : ascii) (a b : string) :
  (String c a ++ b)%string = String c (a ++ b)%string.
Proof. reflexivity. Qed.

Lemma append_empty_l (b : string) : ("" ++ b)%string = b.
Proof. reflexivity. Qed.

Lemma ascii_upper_app (a b : string) :
  ascii_upper (a ++ b)%string = (ascii_upper a ++ ascii_upper b)%string.
Proof.
  induction a as [ | c a IH ]; [ reflexivity | ].
  rewrite append_cons. cbn [ascii_upper]. by rewrite append_cons, IH.
Qed.

(** Upper-casing is letter by letter, so a split of the upper-cased
    text is the image of a split of the text. *)
Lemma ascii_upper_split (s a b : string) :
  ascii_upper s = (a ++ b)%string ->
  exists a' b', s = (a' ++ b')%string /\ ascii_upper a' = a /\ ascii_upper b' = b.
Proof.
  revert s. induction a as [ | c a IH ]; intros s H.
  - exists "", s. by rewrite !append_empty_l in *.
  - rewrite append_cons in H. destruct s as [ | d s ]; [ discriminate | ].
    cbn [ascii_upper] in H. injection H as Hc Hs.
    destruct (IH s Hs) as (a' & b' & -> & Ha & Hb).
    exists (String d a'), b'. rewrite append_cons. cbn [ascii_upper].
    by rewrite Hc, Ha.
Qed.

Lemma startsWith_iff (s p : string) :
  startsWith s p = true <-> exists post, s = (p ++ post)%string.
Proof.
  revert s. induction p as [ | a p IH ]; intros s.
  - split; [ intros _; by exists s | by destruct s ].
  - destruct s as [ | b s ].
    + split; [ discriminate | intros [post H]; discriminate ].
    + cbn [startsWith]. destruct (Ascii.eqb_spec a b) as [-> | Hne].
      * rewrite IH. split; intros [post H]; exists post.
        -- by rewrite append_cons, H.
        -- rewrite append_cons in H. by injection H.
      * split; [ discriminate | ]. intros [post H].
        rewrite append_cons in H. injection H as H1 _. congruence.
Qed.

Lemma includes_iff (s p : string) :
  includes s p = true <-> exists pre post, s = (pre ++ p ++ post)%string.
Proof.
  induction s as [ | c s IH ].
  - cbn [includes]. destruct (startsWith "" p) eqn:E.
    + apply startsWith_iff in E as [post E]. split; [ | done ].
      intros _. by exists "", post.
    + split; [ discriminate | ]. intros (pre & post & H).
      destruct pre; [ | discriminate ]. rewrite append_empty_l in H.
      assert (startsWith "" p = true) by (apply startsWith_iff; eauto).
      congruence.
  - cbn [includes]. destruct (startsWith (String c s) p) eqn:E.
    + apply startsWith_iff in E as [post E]. split; [ | done ].
      intros _. by exists "", post.
    + rewrite IH. split.
      * intros (pre & post & ->). by exists (String c pre), post.
      * intros (pre & post & H). destruct pre as [ | d pre ].
        -- rewrite append_empty_l in H.
           assert (startsWith (String c s) p = true)
             by (apply startsWith_iff; eauto).
           congruence.
        -- rewrite append_cons in H. injection H as _ ->. by exists pre, post.
Qed.

(** On the letter-by-letter upper-casing, [includes] is containment up
    to ASCII case. *)
Lemma includes_upper_iff (s p : string) :
  includes (ascii_upper s) p = true <-> contains_ignoring_case s p.
Proof.
  rewrite includes_iff. unfold contains_ignoring_case. split.
  - intros (pre & post & H).
    apply ascii_upper_split in H as (pre' & rest & -> & _ & Hrest).
    apply ascii_upper_split in Hrest as (mid & post' & -> & Hmid & _).
    by exists pre', mid, post'.
  - intros (pre & mid & post & -> & <-).
    exists (ascii_upper pre), (ascii_upper post).
    by rewrite !ascii_upper_app.
Qed.

Lemma toUpperCase_ascii (U : string -> string) (s : string) :
  is_ascii s = true -> toUpperCase U s = ascii_upper s.
Proof. intros H. unfold toUpperCase. by rewrite H. Qed.

(** For an ASCII status text the test of the Action cell is containment
    up to case, whatever the runtime's tables are. *)
Lemma cancel_offered_iff (U : string -> string) (o : order) :
  is_ascii (order_status_text o) = true ->
  cancel_offered U o = true
  <-> contains_ignoring_case (order_status_text o) "PENDING"
      \/ contains_ignoring_case (order_status_text o) "OPEN".
Proof.
  intros Hascii. unfold cancel_offered. rewrite orb_true_iff.
  by rewrite (toUpperCase_ascii U _ Hascii), !includes_upper_iff.
Qed.

Lemma order_action_cases (U : string -> string) (o : order) :
  ((exists arg, order_action U o = CancelButton arg) <-> cancel_offered U o = true)
  /\ (order_action U o = Dash <-> cancel_offered U o <> true).
Proof.
  unfold order_action. destruct (cancel_offered U o); split; split; eauto; try done.
  intros [arg H]; discriminate.
Qed.

(** A status text outside ASCII goes through the runtime's tables:
    with tables that upper-case the dotless i to [I], the order whose
    status is spelled with it shows the Cancel button. *)
Lemma dotless_status_shows_cancel (U : string -> string) :
  U "pendıng" = "PENDING" ->
  is_ascii (order_status_text dotless_order) = false
  /\ order_action U dotless_order = CancelButton (Str "112111182200").
Proof.
  intros HU. split; [ reflexivity | ].
  unfold order_action, cancel_offered, toUpperCase.
  change (order_status_text dotless_order) with "pendıng".
  replace (is_ascii "pendıng") with false by reflexivity.
  by rewrite HU.
Qed.

Lemma startsWith_app (p x : string) : startsWith (p ++ x)%string p = true.
Proof. apply startsWith_iff. by exists x. Qed.

(** C6: the Action cell of an order shows the Cancel button exactly
    when the upper-case form of its status text, as the runtime's
    [toUpperCase] gives it, contains PENDING or OPEN, and a dash
    otherwise; for an ASCII status text that is exactly when the text
    contains PENDING or OPEN up to the case of its letters.  And a
    cancellation whose request does not come back as a success leaves
    the order list as it was and, once the request was sent, shows a
    message that begins with [Cancel failed: ] or [Cancel error: ]. *)
Theorem C6_cancel_gating_and_failure :
  (forall (U : string -> string) (o : order),
      ((exists arg, order_action U o = CancelButton arg)
       <-> (includes (toUpperCase U (order_status_text o)) "PENDING" = true
            \/ includes (toUpperCase U (order_status_text o)) "OPEN" = true))
      /\ (order_action U o = Dash
          <-> ~ (includes (toUpperCase U (order_status_text o)) "PENDING" = true
                 \/ includes (toUpperCase U (order_status_text o)) "OPEN" = true)))
  /\ (forall (U : string -> string) (o : order),
        is_ascii (order_status_text o) = true ->
        ((exists arg, order_action U o = CancelButton arg)
         <-> (contains_ignoring_case (order_status_text o) "PENDING"
              \/ contains_ignoring_case (order_status_text o) "OPEN"))
        /\ (order_action U o = Dash
            <-> ~ (contains_ignoring_case (order_status_text o) "PENDING"
                   \/ contains_ignoring_case (order_status_text o) "OPEN")))
  /\ (forall (orderId : scalar) (confirmed : bool) (resp : http cancel_reply)
             (orders_resp : http (option (list order))) (w : world),
        (forall res, resp = Resolved res -> cr_status res <> Str "success") ->
        orders (ui (exec (handleCancel orderId confirmed resp orders_resp) w))
        = orders (ui w)
        /\ (truthy orderId = true -> confirmed = true ->
            sent (exec (handleCancel orderId confirmed resp orders_resp) w)
            = sent w ++ [PostOrderCancel orderId]
            /\ exists msg,
                notif (ui (exec (handleCancel orderId confirmed resp orders_resp) w))
                = Some msg
                /\ (startsWith msg "Cancel failed: " = true
                    \/ startsWith msg "Cancel error: " = true))).
Proof.
  split; [ | split ].
  - intros U o. destruct (order_action_cases U o) as [H1 H2].
    rewrite H1, H2. unfold cancel_offered. rewrite orb_true_iff. tauto.
  - intros U o Hascii. destruct (order_action_cases U o) as [H1 H2].
    rewrite H1, H2, (cancel_offered_iff U o Hascii). tauto.
  - intros orderId confirmed resp orders_resp w Hfail.
    unfold handleCancel.
    destruct (truthy orderId); cbn [negb]; [ | split; [ done | discriminate ] ].
    destruct confirmed; cbn [negb]; [ | split; [ done | discriminate ] ].
    destruct resp as [e | res].
    + cbn. split; [ done | ]. intros _ _. split; [ done | ].
      eexists. split; [ reflexivity | ]. right. apply startsWith_app.
    + specialize (Hfail res eq_refl).
      unfold exec, try_catch, mbind, M_bind, bind, await. cbn.
      destruct (decide (cr_status res = Str "success")) as [ | _ ]; [ done | ].
      cbn. split; [ done | ]. intros _ _. split; [ done | ].
      eexists. split; [ reflexivity | ]. left. apply startsWith_app.
Qed.

Lemma C6_cancel_gating_and_failure_witness :
  (contains_ignoring_case (order_status_text pending_order) "PENDING"
   \/ contains_ignoring_case (order_status_text pending_order) "OPEN")
  /\ order_action no_tables traded_order = Dash
  /\ orders (ui (exec (handleCancel (Str "112111182198") true
                        (Resolved cancel_refused) (Rejected network_down))
                  book_world))
     = [pending_order; traded_order]
  /\ notif (ui (exec (handleCancel (Str "112111182198") true
                        (Resolved cancel_refused) (Rejected network_down))
                  book_world))
     = Some "Cancel failed: Order already traded".
Proof.
  destruct C6_cancel_gating_and_failure as (_ & Hgate & Hfail).
  split; [ | split ].
  - apply (proj1 (Hgate no_tables pending_order eq_refl)).
    exists (Str "112111182198"). reflexivity.
  - reflexivity.
  - destruct (Hfail (Str "112111182198") true (Resolved cancel_refused)
                (Rejected network_down) book_world) as [Horders _].
    + intros res H. injection H as <-. cbn. discriminate.
    + split; [ exact Horders | reflexivity ].
Defined.

End Cancel.

(* ===================================================================== *)
(** * Clearing the paper ledger *)
(* ===================================================================== *)

Section Clear.

(** The ledger of the specification after [clear()]: no trade, no open
    position, no round trip, zero aggregate. *)
Lemma clear_snapshot_empty (log : Ledger.ledger) :
  Ledger.snap_trades (Ledger.snapshot (Ledger.clear log)) = []
  /\ Ledger.openPositions (Ledger.snapshot (Ledger.clear log)) = ∅
  /\ Ledger.closedRoundTrips (Ledger.snapshot (Ledger.clear log)) = []
  /\ Ledger.total_realized_gross (Ledger.snapshot (Ledger.clear log)) = 0.
Proof.
  unfold Ledger.clear, Ledger.snapshot, Ledger.replay.
  cbn [fold_left Ledger.snap_trades Ledger.openPositions Ledger.closedRoundTrips
       Ledger.total_realized_gross Ledger.empty_book Ledger.open_lots Ledger.closed].
  split; [ reflexivity | ]. split; [ apply map_filter_empty | ].
  split; reflexivity.
Qed.

Lemma clearTrades_declined (resp : http PaperTrades.clear_reply)
    (tresp : http PaperTrades.trades_reply) (w : PaperTrades.world) :
  exec (PaperTrades.clearTrades false resp tresp) w = w.
Proof. reflexivity. Qed.

Lemma old_clearTrades_declined (resp : http unit)
    (tresp : http (option PaperTrading.trades_reply)) (w : PaperTrading.world) :
  exec (PaperTrading.clearTrades false resp tresp) w = w.
Proof. reflexivity. Qed.

(** C7: in both paper-trading components, [clearTrades] with the
    confirmation declined sends nothing and changes nothing, so a
    clear request in the log means the user confirmed; and after a
    confirmed clear that the backend answers with success, the trade
    list is fetched again, and when that fetch returns the emptied
    ledger the view holds zero trades. *)
Theorem C7_clear_only_after_confirmation :
  (forall resp tresp w,
      exec (PaperTrades.clearTrades false resp tresp) w = w)
  /\ (forall confirmed resp tresp w,
        PaperTrades.PostPaperClear
          ∈ PaperTrades.sent (exec (PaperTrades.clearTrades confirmed resp tresp) w) ->
        PaperTrades.PostPaperClear ∉ PaperTrades.sent w ->
        confirmed = true)
  /\ (forall reply tresp w,
        PaperTrades.cl_status reply = Str "success" ->
        PaperTrades.sent
          (exec (PaperTrades.clearTrades true (Resolved reply) tresp) w)
        = PaperTrades.sent w
          ++ [PaperTrades.PostPaperClear; PaperTrades.GetPaperTrades])
  /\ (forall reply tr w,
        PaperTrades.cl_status reply = Str "success" ->
        PaperTrades.tr_status tr = Str "success" ->
        reports_zero_trades tr ->
        let v := PaperTrades.ui
                   (exec (PaperTrades.clearTrades true (Resolved reply) (Resolved tr)) w) in
        PaperTrades.trades v = []
        /\ PaperTrades.pairedTrades v = []
        /\ PaperTrades.perSymbol v = [])
  /\ (forall resp tresp w,
        exec (PaperTrading.clearTrades false resp tresp) w = w)
  /\ (forall confirmed resp tresp w,
        PaperTrading.PostPaperClear
          ∈ PaperTrading.sent (exec (PaperTrading.clearTrades confirmed resp tresp) w) ->
        PaperTrading.PostPaperClear ∉ PaperTrading.sent w ->
        confirmed = true)
  /\ (forall tresp w,
        PaperTrading.sent
          (exec (PaperTrading.clearTrades true (Resolved tt) tresp) w)
        = PaperTrading.sent w
          ++ [PaperTrading.PostPaperClear; PaperTrading.GetPaperTrades])
  /\ (forall tr w,
        reports_zero_trades_old tr ->
        let v := PaperTrading.ui
                   (exec (PaperTrading.clearTrades true (Resolved tt)
                            (Resolved (Some tr))) w) in
        PaperTrading.trades v = []
        /\ PaperTrading.openTrades (PaperTrading.trades v) = []
        /\ PaperTrading.closedTrades (PaperTrading.trades v) = []).
Proof.
  repeat apply conj.
  - apply clearTrades_declined.
  - intros [ | ] resp tresp w Hin Hout; [ done | ].
    rewrite clearTrades_declined in Hin. done.
  - intros reply tresp w Hok.
    unfold PaperTrades.clearTrades, PaperTrades.fetchTrades, exec, try_catch,
      mbind, M_bind, bind, await. cbn.
    destruct (decide (PaperTrades.cl_status reply = Str "success")); [ | done ].
    destruct tresp as [err | tr]; cbn.
    + by rewrite <- app_assoc.
    + destruct (decide (PaperTrades.tr_status tr = Str "success"));
        cbn; by rewrite <- app_assoc.
  - intros reply tr w Hok Htr (H1 & H2 & H3).
    unfold PaperTrades.clearTrades, PaperTrades.fetchTrades, exec, try_catch,
      mbind, M_bind, bind, await. cbn.
    destruct (decide (PaperTrades.cl_status reply = Str "success")); [ | done ].
    cbn.
    destruct (decide (PaperTrades.tr_status tr = Str "success")); [ | done ].
    cbn. by rewrite H1, H2, H3.
  - apply old_clearTrades_declined.
  - intros [ | ] resp tresp w Hin Hout; [ done | ].
    rewrite old_clearTrades_declined in Hin. done.
  - intros tresp w.
    unfold PaperTrading.clearTrades, PaperTrading.fetchTrades, exec, try_catch,
      mbind, M_bind, bind, await. cbn.
    destruct tresp as [e | [tr | ]]; cbn; by rewrite <- app_assoc.
  - intros tr w H1. unfold reports_zero_trades_old in H1.
    unfold PaperTrading.clearTrades, PaperTrading.fetchTrades, exec, try_catch,
      mbind, M_bind, bind, await. cbn. by rewrite H1.
Qed.

Lemma C7_clear_only_after_confirmation_witness :
  PaperTrades.trades
    (PaperTrades.ui
       (exec (PaperTrades.clearTrades true (Resolved clear_ok) (Resolved empty_reply))
          panel_with_trade)) = []
  /\ PaperTrading.trades
       (PaperTrading.ui
          (exec (PaperTrading.clearTrades true (Resolved tt)
                   (Resolved (Some old_empty_reply))) old_panel_with_trade)) = [].
Proof.
  destruct C7_clear_only_after_confirmation
    as (_ & _ & _ & Hnew & _ & _ & _ & Hold).
  split.
  - apply (Hnew clear_ok empty_reply panel_with_trade); reflexivity || by vm_compute.
  - apply (Hold old_empty_reply old_panel_with_trade). reflexivity.
Defined.

End Clear.

(* ===================================================================== *)
(** * Messages of caught errors *)
(* ===================================================================== *)

Section MessagesOfErrors.

Import Messages.

Lemma safeMsg_text (s : string) : safeMsg (Scalar (Str s)) = s.
Proof.
  unfold safeMsg. cbn [truthy]. destruct (String.eqb_spec s "") as [-> | Hne]; done.
Qed.

(** At a catch site, [safeMsg(e.message || e)] is the error's message
    when it has one and its JSON rendering otherwise, and this is so
    with the [safeMsg] of either version of App.jsx; [safeMsg] applied
    to its own output returns it unchanged. *)
Theorem safeMsg_at_catch_sites :
  (forall e : exn,
      safeMsg (message_or_self e) = safeMsg_err e
      /\ safeMsg_old (message_or_self e) = safeMsg_err e)
  /\ (forall x : jsval, safeMsg (Scalar (Str (safeMsg x))) = safeMsg x)
  /\ (forall x : jsval, safeMsg_old (Scalar (Str (safeMsg_old x))) = safeMsg_old x).
Proof.
  split; [ | split ].
  - intros e. unfold message_or_self, safeMsg_err.
    destruct (String.eqb_spec (message e) "") as [Heq | Hne].
    + cbn. by rewrite Heq.
    + split; [ apply safeMsg_text | ]. unfold safeMsg_old. cbn [truthy].
      by destruct (String.eqb_spec (message e) "").
  - intros x. apply safeMsg_text.
  - intros x. apply (safeMsg_text (safeMsg_old x)).
Qed.

End MessagesOfErrors.

(* ===================================================================== *)
(** * The order book: refreshing and cancelling *)
(* ===================================================================== *)

Section OrderBook.

Import App.

Lemma fetchOrders_resolved (r : option (list order)) (w : world) :
  exec (fetchOrders (Resolved r)) w
  = {| ui := setLoadingOrders false
               (setOrders (default [] r) (setLoadingOrders true (ui w)));
       sent := sent w ++ [GetOrders] |}.
Proof. reflexivity. Qed.

Lemma fetchOrders_rejected (e : exn) (w : world) :
  exec (fetchOrders (Rejected e)) w
  = {| ui := setLoadingOrders false
               (setNotif (Some ("💥 Error fetching orders: " ++ safeMsg_err e)%string)
                  (setError (Some ("Error fetching orders: " ++ safeMsg_err e)%string)
                     (setOrders [] (setLoadingOrders true (ui w)))));
       sent := sent w ++ [GetOrders] |}.
Proof. reflexivity. Qed.

Lemma fetchOrders_returns (resp : http (option (list order))) (w : world) :
  fetchOrders resp w = (inr tt, exec (fetchOrders resp) w).
Proof. by destruct resp. Qed.

(** [fetchOrders] sends one request and always ends with the loading
    flag down.  A resolved answer replaces the order list (by the
    empty list when the payload has none) and leaves the error banner
    and the toast alone; a rejected one empties the order list and
    raises both the banner and the toast. *)
Theorem fetchOrders_outcomes :
  forall (resp : http (option (list order))) (w : world),
    let w' := exec (fetchOrders resp) w in
    loadingOrders (ui w') = false
    /\ sent w' = sent w ++ [GetOrders]
    /\ match resp with
       | Resolved r =>
           orders (ui w') = default [] r
           /\ error (ui w') = error (ui w)
           /\ notif (ui w') = notif (ui w)
       | Rejected e =>
           orders (ui w') = []
           /\ error (ui w') = Some ("Error fetching orders: " ++ safeMsg_err e)%string
           /\ notif (ui w')
              = Some ("💥 Error fetching orders: " ++ safeMsg_err e)%string
       end.
Proof.
  intros [e | r] w; cbn zeta.
  - rewrite fetchOrders_rejected. by cbn.
  - rewrite fetchOrders_resolved. by cbn.
Qed.

Lemma handleCancel_idle (orderId : scalar) (confirmed : bool)
    (resp : http cancel_reply) (orders_resp : http (option (list order)))
    (w : world) :
  truthy orderId = false \/ confirmed = false ->
  exec (handleCancel orderId confirmed resp orders_resp) w = w.
Proof.
  intros [H | H]; unfold handleCancel; rewrite H; cbn [negb].
  - reflexivity.
  - by destruct (truthy orderId).
Qed.

(** An order shown under its [clientOrderId] only (its [orderId] and
    [id] are falsy) still gets a Cancel button while it is pending or
    open, but the click passes a falsy id, so [handleCancel] returns
    at once: no confirmation, no request, no change. *)
Theorem cancel_click_without_order_id :
  forall (U : string -> string) (o : order) (arg : scalar) (confirmed : bool)
         (resp : http cancel_reply) (orders_resp : http (option (list order)))
         (w : world),
    truthy (orderId o) = false ->
    truthy (o_id o) = false ->
    order_action U o = CancelButton arg ->
    exec (handleCancel arg confirmed resp orders_resp) w = w.
Proof.
  intros U o arg confirmed resp orders_resp w H1 H2 Hact.
  apply handleCancel_idle. left.
  unfold order_action in Hact. destruct (cancel_offered U o); [ | discriminate ].
  injection Hact as <-. unfold or_else. by rewrite H1.
Qed.

Lemma cancel_click_without_order_id_witness :
  exec (handleCancel Undefined true (Resolved cancel_accepted)
          (Rejected network_down)) mounted = mounted.
Proof.
  apply (cancel_click_without_order_id no_tables client_only_order Undefined true
           (Resolved cancel_accepted) (Rejected network_down) mounted);
    reflexivity.
Defined.

(** A confirmed cancel that the backend answers with success sends the
    cancel and then the refresh; the order list becomes the refreshed
    one, and if the refresh fails the order list is emptied and the
    success toast is replaced by the refresh's error toast. *)
Theorem handleCancel_success :
  forall (orderId : scalar) (res : cancel_reply)
         (orders_resp : http (option (list order))) (w : world),
    truthy orderId = true ->
    cr_status res = Str "success" ->
    let w' := exec (handleCancel orderId true (Resolved res) orders_resp) w in
    sent w' = sent w ++ [PostOrderCancel orderId; GetOrders]
    /\ loadingOrders (ui w') = false
    /\ match orders_resp with
       | Resolved r =>
           orders (ui w') = default [] r
           /\ notif (ui w') = Some "Order cancelled ✅"
           /\ error (ui w') = error (ui w)
       | Rejected e =>
           orders (ui w') = []
           /\ notif (ui w')
              = Some ("💥 Error fetching orders: " ++ safeMsg_err e)%string
           /\ error (ui w')
              = Some ("Error fetching orders: " ++ safeMsg_err e)%string
       end.
Proof.
  intros orderId res orders_resp w Hid Hok. cbn zeta.
  unfold handleCancel. rewrite Hid. cbn [negb].
  unfold exec, try_catch, mbind, M_bind, bind, await. cbn.
  destruct (decide (cr_status res = Str "success")) as [_ | Hne]; [ | done ].
  rewrite fetchOrders_returns.
  destruct orders_resp as [e | r];
    rewrite ?fetchOrders_rejected, ?fetchOrders_resolved; cbn;
    by rewrite <- app_assoc.
Qed.

Lemma handleCancel_success_witness :
  sent (exec (handleCancel (Str "112111182198") true (Resolved cancel_accepted)
                (Resolved (Some [traded_order]))) mounted)
  = sent mounted ++ [PostOrderCancel (Str "112111182198"); GetOrders].
Proof.
  apply (handleCancel_success (Str "112111182198") cancel_accepted
           (Resolved (Some [traded_order])) mounted); reflexivity.
Defined.

End OrderBook.

(* ===================================================================== *)
(** * Placing an order: instrument, resolution, submit button *)
(* ===================================================================== *)

Section Submit.

Import App OrderForm.

(** Submitting with no instrument selected sends nothing: the handler
    shows the hint, leaves no error and no market notice, and ends
    with the placing flag down. *)
Theorem place_without_instrument :
  forall (r : http resolve_reply) (w : world),
    selectedInstrument (form (ui w)) = None ->
    let w' := exec (handlePlaceOrder r) w in
    sent w' = sent w
    /\ placing (ui w') = false
    /\ notif (ui w') = Some "Please select an instrument from search results first."
    /\ error (ui w') = None
    /\ marketNotice (ui w') = ""
    /\ form (ui w') = form (ui w).
Proof.
  intros r w Hsel. destruct w as [a s]. cbn in Hsel. cbn zeta.
  unfold handlePlaceOrder, exec, mbind, M_bind, bind, gets. cbn.
  rewrite Hsel. by cbn.
Qed.

Lemma place_without_instrument_witness :
  sent (exec (handlePlaceOrder (Rejected network_down)) mounted) = sent mounted.
Proof.
  apply (place_without_instrument (Rejected network_down) mounted). reflexivity.
Defined.

(** When no security id is at hand and the symbol cannot be resolved
    (the request is rejected, or the answer has no instrument), no
    order is posted: the only request is the resolve, the placing flag
    goes down, and the banner and the toast show "Resolve failed"
    followed by the error's JSON rendering, which for an answer
    without instrument is "{}" whatever message the backend sent. *)
Theorem place_resolve_failure :
  forall (resp : http resolve_reply) (w : world) (inst : instrument),
    selectedInstrument (form (ui w)) = Some inst ->
    truthy (coalesce (securityId inst) (inst_security_id inst)) = false ->
    (forall rep, resp = Resolved rep -> rr_inst rep = None) ->
    let w' := exec (handlePlaceOrder resp) w in
    let shown := match resp with
                 | Rejected e => ("❌ Resolve failed: " ++ json e)%string
                 | Resolved _ => "❌ Resolve failed: {}"
                 end in
    sent w' = sent w ++ [GetResolveSymbol (tradingSymbol inst) (inst_segment inst)]
    /\ placing (ui w') = false
    /\ error (ui w') = Some shown
    /\ notif (ui w') = Some shown
    /\ form (ui w') = form (ui w).
Proof.
  intros resp w inst Hsel Hfalsy Hnone. destruct w as [a s]. cbn in Hsel. cbn zeta.
  unfold handlePlaceOrder, exec, try_catch, mbind, M_bind, bind, gets, await. cbn.
  rewrite Hsel. cbn. rewrite Hfalsy.
  destruct resp as [e | rep]; cbn.
  - done.
  - rewrite (Hnone rep eq_refl). by cbn.
Qed.

Lemma place_resolve_failure_witness :
  error (ui (exec (handlePlaceOrder (Resolved resolve_missing)) no_id_world))
  = Some "❌ Resolve failed: {}".
Proof.
  apply (place_resolve_failure (Resolved resolve_missing) no_id_world nifty_no_id).
  - reflexivity.
  - reflexivity.
  - intros rep H. by injection H as <-.
Defined.

(** When no security id is at hand and the symbol resolves, the
    handler sends the resolve and then one order whose security id is
    the text of the resolved instrument's [securityId]; the other
    parameters come from the form, and the selected instrument keeps
    the resolved id under [security_id]. *)
Theorem place_resolve_success :
  forall (rep : resolve_reply) (found : instrument) (w : world) (inst : instrument),
    selectedInstrument (form (ui w)) = Some inst ->
    truthy (coalesce (securityId inst) (inst_security_id inst)) = false ->
    rr_inst rep = Some found ->
    let w' := exec (handlePlaceOrder (Resolved rep)) w in
    let sid := Str (String_ (securityId found)) in
    sent w'
    = sent w ++ [GetResolveSymbol (tradingSymbol inst) (inst_segment inst);
                 PostOrderPlace (place_params_of (form (ui w)) inst sid)]
    /\ selectedInstrument (form (ui w')) = Some (set_security_id sid inst)
    /\ error (ui w') = None.
Proof.
  intros rep found w inst Hsel Hfalsy Hfound. destruct w as [a s]. cbn in Hsel.
  cbn zeta.
  unfold handlePlaceOrder, exec, try_catch, mbind, M_bind, bind, gets, await.
  cbn -[place_params_of].
  rewrite Hsel. cbn -[place_params_of]. rewrite Hfalsy, Hfound.
  cbn -[place_params_of]. rewrite Hsel. cbn -[place_params_of].
  by rewrite <- app_assoc.
Qed.

Lemma place_resolve_success_witness :
  selectedInstrument
    (form (ui (exec (handlePlaceOrder (Resolved resolve_found)) no_id_world)))
  = Some (set_security_id (Str "11536") nifty_no_id).
Proof.
  apply (place_resolve_success resolve_found tcs_found no_id_world nifty_no_id);
    reflexivity.
Defined.

Lemma pickInstrument_form (inst : instrument) (w : world) :
  form (ui (exec (pickInstrument inst) w))
  = set_searchResults []
      (set_searchQuery (picked_query inst)
         (set_selectedInstrument
            (Some (set_security_id (Str (String_ (securityId inst))) inst))
            (form (ui w)))).
Proof. reflexivity. Qed.

Lemma nullish_String_truthy (v : scalar) :
  nullish v = true -> truthy (Str (String_ v)) = true.
Proof. by destruct v. Qed.

(** Picking a search result and then submitting: when the result's
    [securityId] is truthy the handler posts one order with that id
    and never asks [/resolve-symbol]; when it is [undefined] or [null]
    the handler likewise posts at once, and the id it sends is the
    text "undefined" or "null" that [pickInstrument] stored. *)
Theorem pick_then_place :
  forall (inst : instrument) (r : http resolve_reply) (w : world),
    truthy (securityId inst) = true \/ nullish (securityId inst) = true ->
    let w1 := exec (pickInstrument inst) w in
    let w2 := exec (handlePlaceOrder r) w1 in
    exists p,
      sent w2 = sent w ++ [PostOrderPlace p]
      /\ symbol p = tradingSymbol inst
      /\ security_id p = (if truthy (securityId inst) then securityId inst
                          else Str (String_ (securityId inst)))
      /\ truthy (security_id p) = true
      /\ searchResults (form (ui w2)) = []
      /\ searchQuery (form (ui w2)) = picked_query inst.
Proof.
  intros inst r w Hid. destruct w as [a s]. cbn zeta.
  unfold handlePlaceOrder, pickInstrument, on_form, exec, try_catch, mbind,
    M_bind, bind, gets, await. cbn -[place_params_of].
  unfold coalesce. cbn [securityId inst_security_id set_security_id].
  destruct Hid as [Ht | Hn].
  - rewrite (truthy_not_nullish _ Ht), Ht. cbn -[place_params_of].
    eexists. repeat split; done.
  - rewrite Hn. rewrite (nullish_String_truthy _ Hn). cbn -[place_params_of].
    assert (Hf : truthy (securityId inst) = false) by (by destruct (securityId inst)).
    rewrite Hf. eexists. repeat split; try done.
    cbn. by apply nullish_String_truthy.
Qed.

Lemma pick_then_place_witness :
  exists p,
    sent (exec (handlePlaceOrder (Rejected network_down))
            (exec (pickInstrument tcs_found) mounted))
    = sent mounted ++ [PostOrderPlace p]
    /\ symbol p = "TCS"
    /\ security_id p = Num 11536.
Proof.
  destruct (pick_then_place tcs_found (Rejected network_down) mounted)
    as (p & H1 & H2 & H3 & _).
  - left. reflexivity.
  - exists p. repeat split; assumption.
Defined.

(** While the submit button of the current App.jsx is enabled, a
    submit whose selected instrument has a [securityId] that is truthy,
    [undefined] or [null] posts exactly one order, without asking
    [/resolve-symbol], and the order carries a truthy security id. *)
Theorem enabled_submit_posts_with_id :
  forall (r : http resolve_reply) (w : world) (inst : instrument),
    submit_disabled (ui w) = false ->
    selectedInstrument (form (ui w)) = Some inst ->
    truthy (securityId inst) = true \/ nullish (securityId inst) = true ->
    exists p,
      sent (exec (handlePlaceOrder r) w) = sent w ++ [PostOrderPlace p]
      /\ truthy (security_id p) = true
      /\ security_id p = or_else (securityId inst) (inst_security_id inst).
Proof.
  intros r w inst Hen Hsel Hid. destruct w as [a s]. cbn in Hen, Hsel.
  unfold submit_disabled, selected_field in Hen. rewrite Hsel in Hen.
  apply orb_false_iff in Hen as [_ Hen]. apply negb_false_iff in Hen.
  unfold handlePlaceOrder, exec, try_catch, mbind, M_bind, bind, gets, await.
  cbn -[place_params_of]. rewrite Hsel. cbn -[place_params_of].
  unfold coalesce, or_else in *.
  destruct Hid as [Ht | Hn].
  - rewrite (truthy_not_nullish _ Ht), Ht in *. cbn -[place_params_of].
    eexists. repeat split; done.
  - assert (Hf : truthy (securityId inst) = false) by (by destruct (securityId inst)).
    rewrite Hn. rewrite Hf in *. rewrite Hen. cbn -[place_params_of].
    eexists. repeat split; done.
Qed.

Lemma enabled_submit_posts_with_id_witness :
  exists p,
    sent (exec (handlePlaceOrder (Rejected network_down)) limit_world)
    = sent limit_world ++ [PostOrderPlace p]
    /\ truthy (security_id p) = true.
Proof.
  destruct (enabled_submit_posts_with_id (Rejected network_down) limit_world tcs)
    as (p & H1 & H2 & _).
  - reflexivity.
  - reflexivity.
  - left. reflexivity.
  - exists p. split; assumption.
Defined.

(** While the submit button of the earlier App.jsx is enabled, a
    submit posts exactly one order and the order carries the selected
    instrument's truthy [securityId]. *)
Theorem old_enabled_submit_posts_with_id :
  forall (w : world),
    submit_disabled_old (ui w) = false ->
    exists inst,
      selectedInstrument (form (ui w)) = Some inst
      /\ sent (exec AppOld.handlePlaceOrder w)
         = sent w ++ [PostOrderPlace (AppOld.place_params_of (form (ui w)) inst)]
      /\ security_id (AppOld.place_params_of (form (ui w)) inst) = securityId inst
      /\ truthy (securityId inst) = true.
Proof.
  intros w Hen. unfold submit_disabled_old, selected_field in Hen.
  apply orb_false_iff in Hen as [_ Hen]. apply negb_false_iff in Hen.
  destruct (selectedInstrument (form (ui w))) as [inst | ] eqn:Hsel; [ | done ].
  exists inst. split; [ done | ]. split; [ | done ].
  by apply old_handlePlaceOrder_sends.
Qed.

Lemma old_enabled_submit_posts_with_id_witness :
  exists inst,
    selectedInstrument (form (ui limit_world)) = Some inst
    /\ truthy (securityId inst) = true.
Proof.
  destruct (old_enabled_submit_posts_with_id limit_world) as (inst & H1 & _ & _ & H2).
  - reflexivity.
  - exists inst. split; assumption.
Defined.

End Submit.

(* ===================================================================== *)
(** * The live-alerts feed: what a run keeps *)
(* ===================================================================== *)

Section FeedRuns.

Import App FeedState.

Lemma set_seen_same (a : app) : set_seenAlertIds (seenAlertIds a) a = a.
Proof. by destruct a. Qed.

(** After the loop every truthy id of the response is in the seen-set. *)
Lemma scan_covers (now : Z) (arr : list alert) (seen : gset scalar) (a : alert) :
  a ∈ arr -> truthy (a_id a) = true -> a_id a ∈ (scan now arr seen []).1.
Proof.
  revert seen. induction arr as [ | b rest IH ]; intros seen Hin Ht.
  - by apply elem_of_nil in Hin.
  - rewrite scan_cons. apply elem_of_cons in Hin as [-> | Hin].
    + rewrite Ht. cbn [negb].
      destruct (decide (a_id b ∈ seen)) as [Hseen | Hnew].
      * by apply (proj1 (scan_spec now rest seen)).
      * cbn [fst]. apply (proj1 (scan_spec now rest _)).
        apply elem_of_union_l. by apply elem_of_singleton.
    + destruct (negb (truthy (a_id b))); [ by apply IH | ].
      destruct (decide (a_id b ∈ seen)); [ by apply IH | ].
      cbn [fst]. by apply IH.
Qed.

(** A response whose truthy ids are all seen yields nothing new. *)
Lemma scan_all_seen (now : Z) (arr : list alert) (seen : gset scalar) :
  (forall a, a ∈ arr -> truthy (a_id a) = true -> a_id a ∈ seen) ->
  scan now arr seen [] = (seen, []).
Proof.
  induction arr as [ | b rest IH ]; intros Hall; [ reflexivity | ].
  rewrite scan_cons.
  assert (Hrest : forall a, a ∈ rest -> truthy (a_id a) = true -> a_id a ∈ seen).
  { intros a Ha. apply Hall. by right. }
  destruct (truthy (a_id b)) eqn:Ht; cbn [negb]; [ | by apply IH ].
  destruct (decide (a_id b ∈ seen)) as [ | Hnew ]; [ by apply IH | ].
  exfalso. apply Hnew. apply Hall; [ left | done ].
Qed.

(** A poll that brings the same response again changes nothing in the
    component: no card is added, none is removed (not even an expired
    one) and the seen-set stays as it is. *)
Theorem repeated_poll_changes_nothing :
  forall (w : world) (now tupd now' tupd' : Z) (r : option (list alert)),
    ui (step (step w (Poll now tupd (Resolved r))) (Poll now' tupd' (Resolved r)))
    = ui (step w (Poll now tupd (Resolved r))).
Proof.
  intros w now tupd now' tupd' r.
  set (w1 := step w (Poll now tupd (Resolved r))).
  assert (Hseen : forall a, a ∈ default [] r -> truthy (a_id a) = true ->
                            a_id a ∈ seenAlertIds (ui w1)).
  { intros a Ha Ht. unfold w1. rewrite seen_step. by apply scan_covers. }
  cbn [step]. rewrite fetchAlerts_resolved. cbn [ui].
  rewrite (scan_all_seen now' _ _ Hseen). cbn [fst snd].
  destruct (decide (@nil card = [])) as [_ | Hne]; [ | done ].
  apply set_seen_same.
Qed.

Lemma step_consistent (w : world) (e : event) :
  consistent (ui w) -> consistent (ui (step w e)).
Proof.
  intros [Hnd Hin]. unfold consistent.
  destruct (live_step_shape w e) as (kept & Hsub & Heq).
  destruct (new_cards_spec w e) as (Hmono & Hnew & Hspec).
  rewrite Heq. split.
  - rewrite fmap_app. apply NoDup_app. split; [ done | ]. split.
    + intros x Hx Hx'.
      apply list_elem_of_fmap in Hx as (c & -> & Hc).
      apply list_elem_of_fmap in Hx' as (c' & Heq' & Hc').
      destruct (Hspec c Hc) as (_ & Hfresh & _).
      apply Hfresh. rewrite Heq'. apply Hin. by eapply elem_of_sublist.
    + apply (sublist_NoDup (card_id <$> kept) (card_id <$> liveAlerts (ui w)));
        [ exact Hnd | by apply fmap_sublist ].
  - intros c Hc. apply elem_of_app in Hc as [Hc | Hc].
    + by destruct (Hspec c Hc) as (_ & _ & Hseen & _).
    + apply Hmono, Hin. by eapply elem_of_sublist.
Qed.

(** Over any run of polls and sweeps the display never holds two cards
    with the same id, ids being compared as the seen-set compares
    them (by type and value, so the number 1 and the text "1" are two
    ids), and every card on display has its id in the seen-set,
    provided this was so at the start (as it is at mount, where both
    are empty). *)
Theorem display_ids_stay_distinct :
  forall (w : world) (evs : list event),
    consistent (ui w) -> consistent (ui (run w evs)).
Proof.
  intros w evs. revert w. induction evs as [ | e rest IH ]; intros w H; [ done | ].
  rewrite run_cons. by apply IH, step_consistent.
Qed.

Lemma display_ids_stay_distinct_witness :
  consistent (ui (run mounted late_trace)).
Proof.
  apply (display_ids_stay_distinct mounted late_trace).
  split; [ constructor | ]. intros c Hc. cbn in Hc. by apply elem_of_nil in Hc.
Defined.

Lemma step_keeps_unexpired (w : world) (e : event) (c : card) :
  c ∈ liveAlerts (ui w) -> filter_clock e < _expiry c ->
  c ∈ liveAlerts (ui (step w e)).
Proof.
  intros Hc Hlt. rewrite live_step.
  destruct e as [now tupd [err | r] | t]; cbn [filter_clock] in Hlt.
  - done.
  - destruct (decide (_ = [])); [ done | ].
    apply elem_of_app. right. by apply list_elem_of_filter.
  - by apply list_elem_of_filter.
Qed.

(** No card leaves the display early: a card on display stays there
    through every poll and sweep whose clock reading is below the
    card's expiry. *)
Theorem card_stays_until_expiry :
  forall (w : world) (evs : list event) (c : card),
    c ∈ liveAlerts (ui w) ->
    Forall (fun e => filter_clock e < _expiry c) evs ->
    c ∈ liveAlerts (ui (run w evs)).
Proof.
  intros w evs c. revert w. induction evs as [ | e rest IH ]; intros w Hc Hall;
    [ done | ].
  apply Forall_cons in Hall as [He Hrest].
  rewrite run_cons. apply IH; [ | done ]. by apply step_keeps_unexpired.
Qed.

Lemma card_stays_until_expiry_witness :
  card_a1 ∈ liveAlerts (ui (run (step mounted (Poll 500 500 (Resolved (Some [alert_a1]))))
                              (sweeps 0 20))).
Proof.
  apply (card_stays_until_expiry
           (step mounted (Poll 500 500 (Resolved (Some [alert_a1]))))
           (sweeps 0 20) card_a1).
  - by vm_compute; left.
  - unfold sweeps. apply Forall_fmap, Forall_forall. intros k Hk.
    apply elem_of_seqZ in Hk. cbn. lia.
Defined.

(** Two sweeps in a row leave what one sweep at the later of the two
    clock readings leaves; in particular a second sweep at the same
    reading removes nothing more. *)
Theorem sweeps_compose :
  forall (w : world) (t t' : Z),
    step (step w (Sweep t)) (Sweep t') = step w (Sweep (Z.max t t'))
    /\ step (step w (Sweep t)) (Sweep t) = step w (Sweep t).
Proof.
  assert (H : forall w t t',
             step (step w (Sweep t)) (Sweep t') = step w (Sweep (Z.max t t'))).
  { intros [a s] t t'. cbn. unfold exec, sweep, on_ui, modify. cbn.
    f_equal. unfold setLiveAlerts. cbn. f_equal.
    rewrite list_filter_filter. apply list_filter_iff. intros x. lia. }
  intros w t t'. split; [ apply H | ].
  rewrite H. by rewrite Z.max_id.
Qed.

(** A poll or a sweep touches the live-alerts list and the seen-set
    and nothing else: orders, positions, holdings, funds, the form and
    every message are as before, and at most one request, the alerts
    GET, is added to those sent. *)
Theorem feed_events_touch_only_the_feed :
  forall (w : world) (e : event),
    (exists l s,
        ui (step w e) = set_seenAlertIds s (setLiveAlerts (fun _ => l) (ui w)))
    /\ (sent (step w e) = sent w \/ sent (step w e) = sent w ++ [GetAlerts 100]).
Proof.
  intros [a s] [now tupd [err | r] | t].
  - split; [ | by right ].
    exists (liveAlerts a), (seenAlertIds a). by destruct a.
  - cbn [step]. rewrite fetchAlerts_resolved. cbn [ui sent]. split; [ | by right ].
    destruct (decide (_ = [])).
    + eexists (liveAlerts a), _. by destruct a.
    + eexists _, _. reflexivity.
  - split; [ | by left ].
    exists (filter (fun x => t < _expiry x) (liveAlerts a)), (seenAlertIds a).
    by destruct a.
Qed.

End FeedRuns.

(* ===================================================================== *)
(** * The account poll and the connection header *)
(* ===================================================================== *)

Section AccountPoll.

Import App Account.

Lemma connected_line_includes (okBroker okDB : scalar) :
  includes (connected_line okBroker okDB) "Connected" = true.
Proof. unfold connected_line. by destruct (truthy okBroker), (truthy okDB). Qed.

Lemma fetchAll_status_cases (B : string) (s : http status_reply)
    (f : http (option (gmap string Qc))) (h : http (option (list holding)))
    (p : http (option (list position))) (w : world) :
  status (ui (exec (fetchAll B s f h p) w)) = "Not Connected ❌"
  \/ exists sd, s = Resolved sd
                /\ status (ui (exec (fetchAll B s f h p) w))
                   = connected_line (broker_ready sd) (instruments_db_current_today sd).
Proof.
  destruct s as [e | sd]; [ by left | ].
  unfold fetchAll, exec, try_catch, mbind, M_bind, bind, await. cbn.
  destruct (bool_decide (st_status sd = Str "ok")
            || bool_decide (st_status sd = Str "degraded"));
    destruct f as [e | fd]; cbn; try (by left);
    destruct h as [e | hd]; cbn; try (by left);
    destruct p as [e | pd]; cbn; try (by left);
    right; by exists sd.
Qed.

(** Whatever the four requests of [fetchAll] return, the status line
    it leaves contains the word "Connected" (also "Not Connected"), so
    the header shows it in the green class; the red class is only ever
    used for the initial "Checking..." text. *)
Theorem header_is_green_after_any_poll :
  (forall (B : string) (s : http status_reply)
          (f : http (option (gmap string Qc))) (h : http (option (list holding)))
          (p : http (option (list position))) (w : world),
      status_class (status (ui (exec (fetchAll B s f h p) w))) = "text-green-400")
  /\ status_class "Checking..." = "text-red-400".
Proof.
  split; [ | reflexivity ].
  intros B s f h p w. unfold status_class.
  destruct (fetchAll_status_cases B s f h p w) as [-> | (sd & _ & ->)].
  - reflexivity.
  - by rewrite connected_line_includes.
Qed.

(** When one of the four requests of [fetchAll] is rejected, the
    status becomes "Not Connected", the same "Backend unreachable"
    message is put in the status error, the error banner and (behind
    the collision mark) the toast, and the positions are left as they
    were, even if [/status] itself had answered ok. *)
Theorem fetchAll_failure :
  forall (B : string) (s : http status_reply)
         (f : http (option (gmap string Qc))) (h : http (option (list holding)))
         (p : http (option (list position))) (w : world) (e : exn),
    first_failure s f h p = Some e ->
    let w' := exec (fetchAll B s f h p) w in
    let msg := ("Backend unreachable: " ++ safeMsg_err e)%string in
    status (ui w') = "Not Connected ❌"
    /\ statusError (ui w') = Some msg
    /\ error (ui w') = Some msg
    /\ notif (ui w') = Some ("💥 " ++ msg)%string
    /\ positions (ui w') = positions (ui w)
    /\ orders (ui w') = orders (ui w).
Proof.
  intros B s f h p w e Hfail. cbn zeta.
  unfold fetchAll, exec, try_catch, mbind, M_bind, bind, await.
  destruct s as [e0 | sd]; cbn in Hfail |- *.
  { injection Hfail as ->. done. }
  destruct (bool_decide (st_status sd = Str "ok")
            || bool_decide (st_status sd = Str "degraded"));
    destruct f as [e0 | fd]; cbn in Hfail |- *;
    try (injection Hfail as ->; done);
    destruct h as [e0 | hd]; cbn in Hfail |- *;
    try (injection Hfail as ->; done);
    destruct p as [e0 | pd]; cbn in Hfail |- *;
    try (injection Hfail as ->; done); discriminate.
Qed.

Lemma fetchAll_failure_witness :
  status (ui (exec (fetchAll "http://localhost:8000" (Resolved status_ok)
                      (Rejected network_down) (Rejected network_down)
                      (Rejected network_down)) account_mounted))
  = "Not Connected ❌".
Proof.
  apply (fetchAll_failure "http://localhost:8000" (Resolved status_ok)
           (Rejected network_down) (Rejected network_down) (Rejected network_down)
           account_mounted network_down).
  reflexivity.
Defined.

(** When all four requests of [fetchAll] resolve, funds, holdings and
    positions are replaced by the answers (empty lists where the
    payload has none), the four requests went out in the order status,
    funds, holdings, positions, and neither the error banner nor the
    toast is touched: a banner raised by an earlier failure is not
    cleared by a later successful poll. *)
Theorem fetchAll_success :
  forall (B : string) (sd : status_reply) (fd : option (gmap string Qc))
         (hd : option (list holding)) (pd : option (list position)) (w : world),
    let w' := exec (fetchAll B (Resolved sd) (Resolved fd) (Resolved hd)
                      (Resolved pd)) w in
    sent w' = sent w ++ [GetStatus; GetFunds; GetHoldings; GetPositions]
    /\ funds (ui w') = fd
    /\ holdings (ui w') = default [] hd
    /\ positions (ui w') = default [] pd
    /\ error (ui w') = error (ui w)
    /\ notif (ui w') = notif (ui w)
    /\ orders (ui w') = orders (ui w).
Proof.
  intros B sd fd hd pd w. cbn zeta.
  unfold fetchAll, exec, try_catch, mbind, M_bind, bind, await. cbn.
  destruct (bool_decide (st_status sd = Str "ok")
            || bool_decide (st_status sd = Str "degraded")); cbn;
    by rewrite <- !app_assoc.
Qed.

End AccountPoll.

(* ===================================================================== *)
(** * The square-off dialog *)
(* ===================================================================== *)

Section SquareOff.

Import App ExitDialog.
Local Open Scope Qc_scope.

Lemma Math_abs_nonneg (q : Qc) : 0 <= Math_abs q.
Proof.
  unfold Math_abs. destruct (q ?= 0) eqn:E.
  - apply (proj2 (Qceq_alt q 0)) in E. subst q. apply Qcle_refl.
  - apply (proj2 (Qclt_alt q 0)) in E.
    apply Qclt_le_weak in E. apply Qcopp_le_compat in E.
    by replace (- 0) with 0 in E by ring.
  - apply (proj2 (Qcgt_alt q 0)) in E. by apply Qclt_le_weak.
Qed.

(** The Exit button of a positions row prepares, and an unedited
    dialog sends, a MARKET order with price 0, product INTRADAY and
    validity DAY for the magnitude of the net quantity on the opposite
    side, so the order's signed quantity is the opposite of the
    position's; the Exit button of a holdings row sells the holding's
    quantity as it is. *)
Theorem exit_order_closes_the_row :
  (forall (p : position) (seg secId : scalar),
      let prm := exit_params (exit_position p seg secId) in
      signed_order_qty prm = - r_qty (position_row p)
      /\ 0 <= pp_qty prm
      /\ order_type prm = "MARKET"
      /\ pp_price prm = 0
      /\ product_type prm = "INTRADAY"
      /\ pp_validity prm = "DAY"
      /\ symbol prm = p_tradingSymbol p
      /\ security_id prm = secId)
  /\ (forall (h : holding) (seg secId : scalar),
        let prm := exit_params (exit_holding h seg secId) in
        pp_side prm = "SELL"
        /\ pp_qty prm = r_qty (holding_row h)
        /\ signed_order_qty prm = - r_qty (holding_row h)
        /\ order_type prm = "MARKET"
        /\ pp_price prm = 0).
Proof.
  split.
  - intros p seg secId. cbn zeta.
    unfold exit_params, exit_position, signed_order_qty.
    cbn [pp_side pp_qty d_side d_qty order_type d_orderType opt_or pp_price
         d_price product_type d_productType pp_validity d_validity symbol
         d_symbol security_id d_securityId].
    generalize (r_qty (position_row p)). intros q.
    repeat split; try reflexivity; [ | apply Math_abs_nonneg ].
    unfold Math_abs.
    destruct (q ?= 0) eqn:E; cbn; try reflexivity.
    apply (proj2 (Qceq_alt q 0)) in E. rewrite E. ring.
  - intros h seg secId. by cbn.
Qed.

End SquareOff.

(* ===================================================================== *)
(** * The paper-trading panels: refreshing and failed clears *)
(* ===================================================================== *)

Section PaperPanels.

(** In both paper-trading components a refresh sends one request,
    shows no alert box and always ends with the loading flag down; a
    refresh that is rejected, or whose answer is not a success (in
    PaperTrading.jsx: has no payload), keeps everything else on the
    panel as it was, so the last good trades stay on display. *)
Theorem paper_refresh_outcomes :
  (forall (resp : http PaperTrades.trades_reply) (w : PaperTrades.world),
      let w' := exec (PaperTrades.fetchTrades resp) w in
      PaperTrades.sent w' = PaperTrades.sent w ++ [PaperTrades.GetPaperTrades]
      /\ PaperTrades.alerts w' = PaperTrades.alerts w
      /\ PaperTrades.loading (PaperTrades.ui w') = false
      /\ PaperTrades.ui w'
         = match resp with
           | Resolved r =>
               if decide (PaperTrades.tr_status r = Str "success")
               then PaperTrades.setLoading false
                      (PaperTrades.setFetched r (PaperTrades.ui w))
               else PaperTrades.setLoading false (PaperTrades.ui w)
           | Rejected _ => PaperTrades.setLoading false (PaperTrades.ui w)
           end)
  /\ (forall (resp : http (option PaperTrading.trades_reply)) (w : PaperTrading.world),
        let w' := exec (PaperTrading.fetchTrades resp) w in
        PaperTrading.sent w' = PaperTrading.sent w ++ [PaperTrading.GetPaperTrades]
        /\ PaperTrading.alerts w' = PaperTrading.alerts w
        /\ PaperTrading.loading (PaperTrading.ui w') = false
        /\ PaperTrading.ui w'
           = match resp with
             | Resolved (Some d) =>
                 PaperTrading.setLoading false
                   (PaperTrading.setFetched d (PaperTrading.ui w))
             | _ => PaperTrading.setLoading false (PaperTrading.ui w)
             end).
Proof.
  split.
  - intros [e | r] [v s a]; cbn zeta.
    + by cbn.
    + unfold PaperTrades.fetchTrades, exec, try_catch, mbind, M_bind, bind, await.
      cbn. by destruct (decide (PaperTrades.tr_status r = Str "success")).
  - intros [e | [d | ]] [v s a]; by cbn.
Qed.

(** A confirmed clear that fails changes nothing on the panel and
    fetches nothing: in PaperTrades.jsx when the request is rejected
    or its answer is not a success, in PaperTrading.jsx when the
    request is rejected.  The only request sent is the clear, and one
    alert box is shown whose text begins with "Clear failed". *)
Theorem failed_clear_keeps_the_panel :
  (forall (resp : http PaperTrades.clear_reply)
          (tresp : http PaperTrades.trades_reply) (w : PaperTrades.world),
      (forall rep, resp = Resolved rep -> PaperTrades.cl_status rep <> Str "success") ->
      let w' := exec (PaperTrades.clearTrades true resp tresp) w in
      PaperTrades.ui w' = PaperTrades.ui w
      /\ PaperTrades.sent w' = PaperTrades.sent w ++ [PaperTrades.PostPaperClear]
      /\ exists m, PaperTrades.alerts w' = PaperTrades.alerts w ++ [m]
                   /\ startsWith m "Clear failed" = true)
  /\ (forall (e : exn) (tresp : http (option PaperTrading.trades_reply))
            (w : PaperTrading.world),
        let w' := exec (PaperTrading.clearTrades true (Rejected e) tresp) w in
        PaperTrading.ui w' = PaperTrading.ui w
        /\ PaperTrading.sent w' = PaperTrading.sent w ++ [PaperTrading.PostPaperClear]
        /\ PaperTrading.alerts w'
           = PaperTrading.alerts w ++ [("Clear failed: " ++ PaperTrading.err_text e)%string]).
Proof.
  split.
  - intros resp tresp w Hfail. cbn zeta.
    unfold PaperTrades.clearTrades, exec, try_catch, mbind, M_bind, bind, await.
    destruct resp as [e | rep]; cbn.
    + repeat split. eexists. split; [ reflexivity | ].
      apply (startsWith_app "Clear failed" (": " ++ PaperTrades.err_text e)%string).
    + destruct (decide (PaperTrades.cl_status rep = Str "success")) as [Heq | _].
      { by destruct (Hfail rep eq_refl). }
      cbn. repeat split. by eexists.
  - intros e tresp w. by cbn.
Qed.

Lemma failed_clear_keeps_the_panel_witness :
  PaperTrades.ui
    (exec (PaperTrades.clearTrades true (Rejected network_down)
             (Resolved empty_reply)) panel_with_trade)
  = PaperTrades.ui panel_with_trade.
Proof.
  apply (proj1 failed_clear_keeps_the_panel (Rejected network_down)
           (Resolved empty_reply) panel_with_trade).
  intros rep H. discriminate.
Defined.

End PaperPanels.
